(** * qgis-workflow: job ledger, group keys, outline reduction, tile pruning

    A shallow embedding of [new-qgis-workflow-8-8-25.py] and of its
    predecessor [qgis-workflow-30-7-25.py].  Where the two scripts have the
    same text the embedding is shared; where they differ the later script
    lives in the modules [New], [NewTiles] and [NewOutline] and the earlier
    one in [Old], [OldTiles] and [OldOutline]. *)

From Stdlib Require Import ZArith List String Ascii Bool Lia DecimalString
  Permutation Reals Lra.
Import ListNotations.

Open Scope string_scope.
Open Scope list_scope.

(** ** The fragments of Python's [str] and [os.path] the scripts use

    A [str] is a [string] whose characters are the code points 0..255. *)
Module Py.

Definition newline : ascii := "010"%char.
Definition comma : ascii := ","%char.
Definition slash : ascii := "/"%char.

(** [str.isspace] on one character: TAB..CR, FS..US, SPACE, NEL and NBSP. *)
Definition isspace (c : ascii) : bool :=
  let n := nat_of_ascii c in
  (((9 <=? n) && (n <=? 13)) || ((28 <=? n) && (n <=? 32))
   || (n =? 133) || (n =? 160))%nat.

Fixpoint lstrip (s : string) : string :=
  match s with
  | EmptyString => EmptyString
  | String c r => if isspace c then lstrip r else s
  end.

Fixpoint rstrip (s : string) : string :=
  match s with
  | EmptyString => EmptyString
  | String c r =>
      match rstrip r with
      | EmptyString => if isspace c then EmptyString else String c EmptyString
      | r' => String c r'
      end
  end.

(** [s.strip()] *)
Definition strip (s : string) : string := rstrip (lstrip s).

(** [s.partition(sep)] for a one-character separator, [None] when the
    separator does not occur. *)
Fixpoint partition1 (sep : ascii) (s : string) : option (string * string) :=
  match s with
  | EmptyString => None
  | String c r =>
      if Ascii.eqb c sep then Some (EmptyString, r)
      else match partition1 sep r with
           | Some (a, b) => Some (String c a, b)
           | None => None
           end
  end.

(** [s.split(sep, 1)] *)
Definition split1 (sep : ascii) (s : string) : list string :=
  match partition1 sep s with
  | Some (a, b) => [a; b]
  | None => [s]
  end.

(** [a, b = xs]: the unpacking raises [ValueError] unless [xs] has two
    elements. *)
Definition unpack2 (xs : list string) : option (string * string) :=
  match xs with
  | [a; b] => Some (a, b)
  | _ => None
  end.

(** [f.readlines()]: the text cut after every newline. *)
Fixpoint readlines (s : string) : list string :=
  match s with
  | EmptyString => []
  | String c r =>
      if Ascii.eqb c newline then String c EmptyString :: readlines r
      else match readlines r with
           | [] => [String c EmptyString]
           | l :: ls => String c l :: ls
           end
  end.

(** [f.writelines(lines)] on a freshly truncated file. *)
Definition writelines (lines : list string) : string := String.concat "" lines.

Definition startswith_slash (s : string) : bool :=
  match s with
  | String c _ => Ascii.eqb c slash
  | EmptyString => false
  end.

Fixpoint endswith_slash (s : string) : bool :=
  match s with
  | EmptyString => false
  | String c EmptyString => Ascii.eqb c slash
  | String _ r => endswith_slash r
  end.

(** [os.path.join(a, b)] as [posixpath] defines it. *)
Definition os_path_join (a b : string) : string :=
  if startswith_slash b then b
  else if (String.eqb a "" || endswith_slash a)%bool then a ++ b
  else a ++ String slash b.

Fixpoint basename_from (cur p : string) : string :=
  match p with
  | EmptyString => cur
  | String c r => if Ascii.eqb c slash then basename_from r r else basename_from cur r
  end.

(** [os.path.basename(p)]: what follows the last slash. *)
Definition os_path_basename (p : string) : string := basename_from p p.

End Py.

(** ** Configuration *)

Definition JOB_STATUS_PENDING : string := "PENDING".
Definition JOB_STATUS_IN_PROGRESS : string := "IN_PROGRESS".
Definition JOB_STATUS_DONE : string := "DONE".
Definition BLANK_TILE_SIZE_BYTES : Z := 1800.
Definition ZOOM_MIN : Z := 10.
Definition ZOOM_MAX : Z := 20.

(** ** The job folder and the operations on it

    Of the job folder the coordinator touches two files: the ledger
    [geojson_jobs.txt] (absent, or its text) and the lock
    [geojson_jobs.lock] (present or not). *)

Record fs : Type := mkfs { job_list : option string; lock : bool }.

Inductive exn : Type := LockTimeout | FileNotFoundError | ValueError.

Inductive result (A : Type) : Type :=
| Ok (a : A)
| Raised (e : exn).
Arguments Ok {A} a.
Arguments Raised {A} e.

(** Code that reads and writes the folder and may raise. *)
Definition M (A : Type) : Type := fs -> result A * fs.

Definition ret {A} (a : A) : M A := fun st => (Ok a, st).
Definition raise {A} (e : exn) : M A := fun st => (Raised e, st).
Definition bind {A B} (c : M A) (k : A -> M B) : M B :=
  fun st => match c st with
            | (Ok a, st') => k a st'
            | (Raised e, st') => (Raised e, st')
            end.

Notation "x <- c ;; k" := (bind c (fun x => k))
  (at level 61, c at next level, right associativity).
Notation "c ;;; k" := (bind c (fun _ => k))
  (at level 61, right associativity).

(** [atomic_lock]: the create-exclusive [os.open] succeeds when the lock
    file is absent.  With the lock present and nobody to remove it the poll
    loop runs into its timeout and raises. *)
Definition atomic_lock : M unit :=
  fun st => if lock st then raise LockTimeout st
            else (Ok tt, mkfs (job_list st) true).

(** [atomic_unlock]: [os.remove], a failure of which is swallowed. *)
Definition atomic_unlock : M unit :=
  fun st => (Ok tt, mkfs (job_list st) false).

(** [with open(job_list_path, "r") as f: lines = f.readlines()] *)
Definition read_job_list : M (list string) :=
  fun st => match job_list st with
            | Some text => (Ok (Py.readlines text), st)
            | None => raise FileNotFoundError st
            end.

(** [with open(job_list_path, "w") as f: f.writelines(new_lines)] *)
Definition write_job_list (new_lines : list string) : M unit :=
  fun st => (Ok tt, mkfs (Some (Py.writelines new_lines)) (lock st)).

(** [fn, status = line.strip().split(",", 1)] *)
Definition parse_line (line : string) : option (string * string) :=
  Py.unpack2 (Py.split1 Py.comma (Py.strip line)).

Definition entry_line (fn status : string) : string :=
  fn ++ String Py.comma (status ++ String Py.newline EmptyString).

(** The [for line in lines] loop of [claim_next_job], with its two
    variables [new_lines] and [claimed_file]. *)
Fixpoint claim_loop (lines new_lines : list string) (claimed_file : option string)
  : result (list string * option string) :=
  match lines with
  | [] => Ok (new_lines, claimed_file)
  | line :: rest =>
      match parse_line line with
      | None => Raised ValueError
      | Some (fn, status) =>
          match String.eqb status JOB_STATUS_PENDING, claimed_file with
          | true, None =>
              claim_loop rest (new_lines ++ [entry_line fn JOB_STATUS_IN_PROGRESS]) (Some fn)
          | _, _ => claim_loop rest (new_lines ++ [line]) claimed_file
          end
      end
  end.

Definition lift {A} (r : result A) : M A := fun st => (r, st).

(** [os.path.join(main_folder, claimed_file) if claimed_file else None]:
    an empty string is false. *)
Definition claimed_path (main_folder : string) (claimed_file : option string)
  : option string :=
  match claimed_file with
  | Some EmptyString => None
  | Some fn => Some (Py.os_path_join main_folder fn)
  | None => None
  end.

Definition claim_next_job (main_folder : string) : M (option string) :=
  atomic_lock ;;;
  lines <- read_job_list ;;
  r <- lift (claim_loop lines [] None) ;;
  write_job_list (fst r) ;;;
  atomic_unlock ;;;
  ret (claimed_path main_folder (snd r)).

(** The loop of [mark_job_done]. *)
Fixpoint mark_loop (filename : string) (lines new_lines : list string)
  : result (list string) :=
  match lines with
  | [] => Ok new_lines
  | line :: rest =>
      match parse_line line with
      | None => Raised ValueError
      | Some (fn, status) =>
          if String.eqb fn (Py.os_path_basename filename)
          then mark_loop filename rest (new_lines ++ [entry_line fn JOB_STATUS_DONE])
          else mark_loop filename rest (new_lines ++ [line])
      end
  end.

Definition mark_job_done (main_folder filename : string) : M unit :=
  atomic_lock ;;;
  lines <- read_job_list ;;
  new_lines <- lift (mark_loop filename lines []) ;;
  write_job_list new_lines ;;;
  atomic_unlock.

(** The loop of [check_all_done]. *)
Fixpoint all_done_loop (lines : list string) : result bool :=
  match lines with
  | [] => Ok true
  | line :: rest =>
      match parse_line line with
      | None => Raised ValueError
      | Some (fn, status) =>
          if negb (String.eqb status JOB_STATUS_DONE) then Ok false
          else all_done_loop rest
      end
  end.

Definition check_all_done (main_folder : string) : M bool :=
  fun st => match job_list st with
            | None => (Ok true, st)
            | Some text => (all_done_loop (Py.readlines text), st)
            end.

(** [build_job_list]; [files] is what [glob] found. *)
Definition build_job_list (main_folder : string) (files : list string) : M unit :=
  fun st => match job_list st with
            | Some _ => (Ok tt, st)
            | None =>
                (Ok tt,
                 mkfs (Some (Py.writelines
                        (map (fun file => entry_line (Py.os_path_basename file)
                                                     JOB_STATUS_PENDING) files)))
                      (lock st))
            end.

(** ** One job and the main loop

    [process_geojson] neither reads nor writes the ledger, and every path
    through it (the early [return] after a failed load, the [except], the
    normal end) leaves through [finally] and returns [None].  What happened
    is visible in what it prints only.  The collaborators (layer loading,
    dissolve, the tile renderer) are an oracle telling at which stage, if
    any, a file fails.  The later script indents the statements after
    "Memory layer created." one level deeper than the [try] they belong
    to; they are read as its continuation, as in the earlier script. *)

Inductive stage_failure : Type := LoadError | GeometryError | RenderError.

Definition collaborators : Type := string -> option stage_failure.

Inductive log_line : Type :=
| Processing | LayerFailedToLoad | MemoryLayerCreated | OutlineCleaned
| TilesGenerated | TileCleanupDone | ErrorGeneratingTiles | ErrorProcessing
| WaitingForJobs | Claimed | AllProcessed.

Definition process_geojson (env : collaborators) (geojson_file : string)
  : list log_line :=
  match env geojson_file with
  | Some LoadError => [Processing; LayerFailedToLoad]
  | Some GeometryError => [Processing; ErrorProcessing]
  | Some RenderError =>
      [Processing; MemoryLayerCreated; OutlineCleaned; ErrorGeneratingTiles]
  | None =>
      [Processing; MemoryLayerCreated; OutlineCleaned; TilesGenerated;
       TileCleanupDone]
  end.

(** The body of the [while] loop of [run] once [check_all_done] has
    answered [False]. *)
Definition run_iteration (env : collaborators) (main_folder : string)
  : M (list log_line) :=
  geojson_file <- claim_next_job main_folder ;;
  match geojson_file with
  | None => ret [WaitingForJobs]
  | Some f =>
      let printed := process_geojson env f in
      mark_job_done main_folder f ;;;
      ret (Claimed :: printed)
  end.

(** [while not check_all_done(main_folder): ...], cut off after [fuel]
    rounds. *)
Fixpoint run_loop (fuel : nat) (env : collaborators) (main_folder : string)
  : M (list log_line) :=
  match fuel with
  | O => ret []
  | S fuel' =>
      finished <- check_all_done main_folder ;;
      if finished then ret [AllProcessed]
      else
        printed <- run_iteration env main_folder ;;
        more <- run_loop fuel' env main_folder ;;
        ret (printed ++ more)
  end.

Definition run (fuel : nat) (env : collaborators) (main_folder : string)
  (files : list string) : M (list log_line) :=
  build_job_list main_folder files ;;;
  run_loop fuel env main_folder.

(** ** Several workers on one folder

    Every worker runs [run] on the same folder.  Between two ledger
    operations a worker is either idle or holds the path [claim_next_job]
    gave it, which it passes to [mark_job_done] after [process_geojson].
    The lock makes each operation one step. *)






(** The entry a ledger has on its line [i] (counted from 0). *)
Definition ledger_lines (st : fs) : list string :=
  match job_list st with
  | Some text => Py.readlines text
  | None => []
  end.

Definition entry_at (st : fs) (i : nat) : option (string * string) :=
  match nth_error (ledger_lines st) i with
  | Some line => parse_line line
  | None => None
  end.

(** The names on the lines of a ledger, in order; a line that does not
    parse has none. *)
Definition entry_names (lines : list string) : list string :=
  flat_map (fun line => match parse_line line with
                        | Some (fn, _) => [fn]
                        | None => []
                        end) lines.

(** A file name as [glob] and [os.path.basename] give it for a sane source
    file: it starts with a character that is not white space and has no
    comma, no newline and no slash. *)
Fixpoint has_char (c : ascii) (s : string) : bool :=
  match s with
  | EmptyString => false
  | String c' r => (Ascii.eqb c' c || has_char c r)%bool
  end.

Definition starts_nonspace (s : string) : bool :=
  match s with
  | String c _ => negb (Py.isspace c)
  | EmptyString => false
  end.

Definition plain_name (fn : string) : bool :=
  (starts_nonspace fn && negb (has_char Py.comma fn)
   && negb (has_char Py.newline fn) && negb (has_char Py.slash fn))%bool.

(** ** Shapes of lines and ledgers, for the statements below *)

Definition no_newline (s : string) : Prop := has_char Py.newline s = false.

(** A line as [readlines] returns it before the last one: some text
    without a newline, then the newline. *)
Definition terminated (line : string) : Prop :=
  exists body, line = (body ++ String Py.newline EmptyString)%string /\ no_newline body.

(** What [readlines] returns: terminated lines, the last of which may lack
    its newline but is not empty then. *)
Fixpoint lines_ok (lines : list string) : Prop :=
  match lines with
  | [] => True
  | line :: rest =>
      match rest with
      | [] => terminated line \/ (line <> EmptyString /\ no_newline line)
      | _ :: _ => terminated line /\ lines_ok rest
      end
  end.

(** Two lists of lines of equal length that differ at one index at most. *)
Definition same_but_one (old new : list string) : Prop :=
  List.length new = List.length old /\
  exists i, forall j, j <> i -> nth_error new j = nth_error old j.

Definition is_status (s : string) : Prop :=
  s = JOB_STATUS_PENDING \/ s = JOB_STATUS_IN_PROGRESS \/ s = JOB_STATUS_DONE.

(** A ledger in the format [build_job_list] writes, from its entries. *)
Definition render (entries : list (string * string)) : list string :=
  map (fun e => entry_line (fst e) (snd e)) entries.



Definition set_done (name : string) (entries : list (string * string))
  : list (string * string) :=
  map (fun e => if String.eqb (fst e) name then (fst e, JOB_STATUS_DONE) else e)
      entries.

(** The newline, if the string has one, is its last character. *)
Fixpoint newline_only_last (s : string) : bool :=
  match s with
  | EmptyString => true
  | String c r =>
      if Ascii.eqb c Py.newline
      then match r with EmptyString => true | _ => false end
      else newline_only_last r
  end.

Definition parses (line : string) : Prop :=
  exists fn s, parse_line line = Some (fn, s).

Definition not_pending (line : string) : Prop :=
  exists fn s, parse_line line = Some (fn, s) /\ s <> JOB_STATUS_PENDING.

(** What [mark_job_done] makes of one line. *)
Definition mark_line (filename line : string) : string :=
  match parse_line line with
  | Some (fn, _) =>
      if String.eqb fn (Py.os_path_basename filename)
      then entry_line fn JOB_STATUS_DONE else line
  | None => line
  end.

Definition well_formed (entries : list (string * string)) : Prop :=
  Forall (fun e => plain_name (fst e) = true /\ is_status (snd e)) entries
  /\ NoDup (map fst entries).


(** A folder for examples: one job finished, one waiting, lock free. *)
Definition example_ledger : string :=
  Py.writelines [entry_line "a.geojson" JOB_STATUS_DONE;
                 entry_line "b.geojson" JOB_STATUS_PENDING].

Definition example_folder : fs := mkfs (Some example_ledger) false.

(** Collaborators that cannot load any file. *)
Definition nothing_loads : collaborators := fun _ => Some LoadError.

(** One source file, freshly listed; and the state after worker 0 has
    claimed it. *)
Definition example_files : list string := ["/jobs/a.geojson"].



(** Two source files whose names differ by a leading blank only, the
    ledger [build_job_list] writes for them, and the states after worker 0
    has claimed a job and after it has marked that job done. *)
Definition blank_files : list string := ["/jobs/ a.geojson"; "/jobs/a.geojson"].

Definition blank_ledger : fs :=
  mkfs (Some (Py.writelines [entry_line " a.geojson" JOB_STATUS_PENDING;
                             entry_line "a.geojson" JOB_STATUS_PENDING]))
       false.




(** ** Group keys

    An attribute value as the classifier meets it: [NULL], an integer or
    a text. *)

Inductive pyval : Type :=
| PyNone
| PyInt (z : Z)
| PyStr (s : string).

(** [a == b] *)
Definition py_eq (a b : pyval) : bool :=
  match a, b with
  | PyNone, PyNone => true
  | PyInt x, PyInt y => Z.eqb x y
  | PyStr x, PyStr y => String.eqb x y
  | _, _ => false
  end.

(** [x in [...]] *)
Definition py_in (x : pyval) (xs : list pyval) : bool := existsb (py_eq x) xs.

Definition is_none (x : pyval) : bool :=
  match x with PyNone => true | _ => false end.

(** [str(x)], which is also how an f-string shows [x]. *)
Definition str (x : pyval) : string :=
  match x with
  | PyNone => "None"
  | PyInt z => NilZero.string_of_int (Z.to_int z)
  | PyStr s => s
  end.

Definition ascii_digit (c : ascii) : bool :=
  let n := nat_of_ascii c in ((48 <=? n) && (n <=? 57))%nat.

(** The characters [str.isdigit] accepts among the code points 0..255:
    the ten digits and the superscripts two, three and one. *)
Definition isdigit_char (c : ascii) : bool :=
  let n := nat_of_ascii c in
  (ascii_digit c || (n =? 178) || (n =? 179) || (n =? 185))%nat.

Fixpoint all_chars (p : ascii -> bool) (s : string) : bool :=
  match s with
  | EmptyString => true
  | String c r => (p c && all_chars p r)%bool
  end.

(** [s.isdigit()] *)
Definition isdigit (s : string) : bool :=
  (negb (String.eqb s "") && all_chars isdigit_char s)%bool.

Fixpoint int_digits (acc : Z) (s : string) : option Z :=
  match s with
  | EmptyString => Some acc
  | String c r =>
      if ascii_digit c
      then int_digits (10 * acc + Z.of_nat (nat_of_ascii c - 48)) r
      else None
  end.

(** [sys.int_info.default_max_str_digits]: CPython's [int] refuses a text
    of more digits, leading zeros counted. *)
Definition int_max_str_digits : Z := 4300.

(** [int(s)] for a [s] that passed [isdigit]; [None] is [ValueError],
    which a superscript digit provokes, and so does a text of more than
    [int_max_str_digits] digits. *)
Definition int_of_str (s : string) : option Z :=
  if (int_max_str_digits <? Z.of_nat (String.length s))%Z then None
  else int_digits 0 s.

(** A feature as the classifier sees it: its fields with their values. *)
Definition feature : Type := list (string * pyval).

(** [feat[field] if field in feat.fields().names() else None] *)
Definition safe_val (feat : feature) (field : string) : pyval :=
  match find (fun p => String.eqb (fst p) field) feat with
  | Some p => snd p
  | None => PyNone
  end.

(** The inner [norm] of [get_group_key], the same in both scripts. *)
Definition norm (x : pyval) : pyval :=
  if py_in x [PyNone; PyStr ""; PyStr "None"] then PyNone
  else match x with
       | PyStr s =>
           if isdigit s
           then match int_of_str s with
                | Some n => PyInt n
                | None => x
                end
           else x
       | _ => x
       end.

(** [t = str(safe_val("Type")).strip() if safe_val("Type") is not None else ""] *)
Definition type_code (feat : feature) : string :=
  if negb (is_none (safe_val feat "Type"))
  then Py.strip (str (safe_val feat "Type"))
  else "".

Definition M_TYPES : list string := ["MU"; "MU/MT"; "MT/MU"; "MU/KW"; "KW"].

Definition str_in (t : string) (ts : list string) : bool := existsb (String.eqb t) ts.

Definition NONE_OR_ZERO : list pyval := [PyNone; PyInt 0].

Module New.

(** [get_group_key] of [new-qgis-workflow-8-8-25.py].  [branch] is what
    the [if]/[elif] chain returns, [None] when it falls through to the
    last two statements. *)
Definition get_group_key (feat : feature) : string :=
  let t := type_code feat in
  let m_norm := norm (safe_val feat "M") in
  let mn_norm := norm (safe_val feat "MN") in
  let b_norm := norm (safe_val feat "B") in
  let k_norm := norm (safe_val feat "K") in
  let branch : option string :=
    if String.eqb t "MT" then
      if (py_in m_norm NONE_OR_ZERO && py_in mn_norm NONE_OR_ZERO)%bool
      then Some "0"
      else if (negb (py_in m_norm NONE_OR_ZERO) && py_in mn_norm NONE_OR_ZERO)%bool
      then Some (str m_norm)
      else if (negb (py_in mn_norm NONE_OR_ZERO) && py_in m_norm NONE_OR_ZERO)%bool
      then Some (str mn_norm)
      else if ((negb (is_none m_norm) && negb (is_none mn_norm))
               && py_eq m_norm mn_norm)%bool
      then Some (str m_norm)
      else if negb (py_in mn_norm NONE_OR_ZERO) then
        if py_in b_norm [PyNone; PyStr ""; PyStr "None"; PyInt 0; PyStr "0"]
        then Some (str mn_norm)
        else Some (str b_norm ++ String Py.slash (str mn_norm))%string
      else if negb (py_in m_norm NONE_OR_ZERO) then Some (str m_norm)
      else Some "0"
    else if str_in t M_TYPES then
      if negb (py_in m_norm NONE_OR_ZERO) then Some (str m_norm) else None
    else if String.eqb t "K" then
      if negb (py_in k_norm NONE_OR_ZERO) then Some (str k_norm) else None
    else None in
  match branch with
  | Some key => key
  | None => if negb (py_in m_norm NONE_OR_ZERO) then str m_norm else "0"
  end.

End New.

Module Old.

(** [get_group_key] of [qgis-workflow-30-7-25.py]: its first three tests
    under [MT] spell out [is None], [== 0] and [!= 0]. *)
Definition get_group_key (feat : feature) : string :=
  let t := type_code feat in
  let m_norm := norm (safe_val feat "M") in
  let mn_norm := norm (safe_val feat "MN") in
  let b_norm := norm (safe_val feat "B") in
  let k_norm := norm (safe_val feat "K") in
  let branch : option string :=
    if String.eqb t "MT" then
      if ((is_none m_norm || py_eq m_norm (PyInt 0))
          && (is_none mn_norm || py_eq mn_norm (PyInt 0)))%bool
      then Some "0"
      else if ((negb (is_none m_norm) && negb (py_eq m_norm (PyInt 0)))
               && (is_none mn_norm || py_eq mn_norm (PyInt 0)))%bool
      then Some (str m_norm)
      else if ((negb (is_none mn_norm) && negb (py_eq mn_norm (PyInt 0)))
               && (is_none m_norm || py_eq m_norm (PyInt 0)))%bool
      then Some (str mn_norm)
      else if ((negb (is_none m_norm) && negb (is_none mn_norm))
               && py_eq m_norm mn_norm)%bool
      then Some (str m_norm)
      else if negb (py_in mn_norm NONE_OR_ZERO) then
        if py_in b_norm [PyNone; PyStr ""; PyStr "None"; PyInt 0; PyStr "0"]
        then Some (str mn_norm)
        else Some (str b_norm ++ String Py.slash (str mn_norm))%string
      else if negb (py_in m_norm NONE_OR_ZERO) then Some (str m_norm)
      else Some "0"
    else if str_in t M_TYPES then
      if negb (py_in m_norm NONE_OR_ZERO) then Some (str m_norm) else None
    else if String.eqb t "K" then
      if negb (py_in k_norm NONE_OR_ZERO) then Some (str k_norm) else None
    else None in
  match branch with
  | Some key => key
  | None => if negb (py_in m_norm NONE_OR_ZERO) then str m_norm else "0"
  end.

End Old.

(** The words of the specification: a normalized value is absent when it
    is [None] or zero. *)
Definition absent (v : pyval) : Prop := v = PyNone \/ v = PyInt 0.
Definition present (v : pyval) : Prop := v <> PyNone /\ v <> PyInt 0.

(** The tuples the specification lists. *)
Definition example_mt_equal : feature :=
  [("Type", PyStr "MT"); ("M", PyInt 5); ("MN", PyInt 5)].
Definition example_mt_different : feature :=
  [("Type", PyStr "MT"); ("M", PyInt 5); ("MN", PyInt 8); ("B", PyInt 3)].
Definition example_mt_blank : feature :=
  [("Type", PyStr "MT"); ("M", PyNone); ("MN", PyNone)].
Definition example_k : feature := [("Type", PyStr "K"); ("K", PyStr "7")].
Definition example_other : feature := [("Type", PyStr "X"); ("M", PyInt 4)].

(** [c * n] for a text [c] of one character. *)
Fixpoint repeat_char (c : ascii) (n : nat) : string :=
  match n with
  | O => EmptyString
  | S k => String c (repeat_char c k)
  end.

(** A zero written with 4301 digits, and an [MT] tuple whose [M] is that
    text. *)
Definition long_zero : string := repeat_char "0" 4301.

Definition example_long_zero : feature :=
  [("Type", PyStr "MT"); ("M", PyStr long_zero); ("MN", PyNone)].

(** ** Blank tiles

    A decoded tile after [convert("RGBA")]: rows of pixels with four
    channels. *)

Record pixel : Type := mkpixel { red : Z; green : Z; blue : Z; alpha : Z }.

Definition image : Type := list (list pixel).

Definition transparent : pixel := mkpixel 0 0 0 0.

(** [Image.new("RGBA", img.size, (0, 0, 0, 0))] *)
Definition Image_new_transparent (img : image) : image :=
  map (map (fun _ => transparent)) img.

Fixpoint zip_with {A B C : Type} (f : A -> B -> C) (xs : list A) (ys : list B)
  : list C :=
  match xs, ys with
  | x :: xs', y :: ys' => f x y :: zip_with f xs' ys'
  | _, _ => []
  end.

Definition pixel_difference (p q : pixel) : pixel :=
  mkpixel (Z.abs (red p - red q)) (Z.abs (green p - green q))
          (Z.abs (blue p - blue q)) (Z.abs (alpha p - alpha q)).

(** [ImageChops.difference(a, b)]: the absolute difference, channel by
    channel. *)
Definition ImageChops_difference (a b : image) : image :=
  zip_with (zip_with pixel_difference) a b.

(** Whether [getbbox] counts a pixel as zero.  Pillow looks at the alpha
    channel alone for an image with alpha when [alpha_only] holds, which
    is its default in recent releases, and at all four channels otherwise,
    as older releases do. *)
Definition pixel_is_zero (alpha_only : bool) (p : pixel) : bool :=
  if alpha_only then (alpha p =? 0)%Z
  else ((red p =? 0) && (green p =? 0) && (blue p =? 0) && (alpha p =? 0))%Z%bool.

(** [img.getbbox() is None] *)
Definition getbbox_is_None (alpha_only : bool) (img : image) : bool :=
  forallb (forallb (pixel_is_zero alpha_only)) img.

(** A tile file on disk: its size if [os.path.getsize] succeeds, its
    pixels if [Image.open] and [convert] succeed, and whether [os.remove]
    succeeds on it. *)
Record tile_file : Type := mktile
  { getsize : option Z; decoded : option image; removable : bool }.

(** An output directory: the paths [os.walk] finds, each with its file. *)
Definition directory : Type := list (string * tile_file).

Definition lookup (p : string) (dir : directory) : option tile_file :=
  match find (fun e => String.eqb (fst e) p) dir with
  | Some e => Some (snd e)
  | None => None
  end.

Definition unlink (p : string) (dir : directory) : directory :=
  filter (fun e => negb (String.eqb (fst e) p)) dir.

(** The comparison both scripts run on a decoded tile. *)
Definition differs_from_blank (alpha_only : bool) (img : image) : bool :=
  negb (getbbox_is_None alpha_only
          (ImageChops_difference img (Image_new_transparent img))).

Definition lower_char (c : ascii) : ascii :=
  let n := nat_of_ascii c in
  if (((65 <=? n) && (n <=? 90))
      || ((192 <=? n) && (n <=? 222) && negb (n =? 215)))%nat
  then ascii_of_nat (n + 32) else c.

Fixpoint lower (s : string) : string :=
  match s with
  | EmptyString => EmptyString
  | String c r => String (lower_char c) (lower r)
  end.

Fixpoint endswith (suffix s : string) : bool :=
  if String.eqb s suffix then true
  else match s with
       | EmptyString => false
       | String _ r => endswith suffix r
       end.

(** [fn.lower().endswith(".png")] *)
Definition is_png (p : string) : bool := endswith ".png" (lower p).

Fixpoint batches {A : Type} (fuel n : nat) (l : list A) : list (list A) :=
  match fuel with
  | O => []
  | S fuel' =>
      match l with
      | [] => []
      | _ :: _ => firstn n l :: batches fuel' n (skipn n l)
      end
  end.

Definition CLEANUP_CHUNK : nat := 5000.

(** The part of [clean_tiles] and [process_tile] the two scripts share:
    [is_blank] is the script's [is_blank_tile] on the file at a path. *)
Section Pruning.

Variable is_blank : tile_file -> bool.

(** [process_tile]: what it returns and the directory it leaves.  A path
    that is gone makes [is_blank_tile] answer [False]; a failing
    [os.remove] is swallowed. *)
Definition process_tile (p : string) (dir : directory) : Z * directory :=
  match lookup p dir with
  | None => (0%Z, dir)
  | Some t =>
      if is_blank t
      then if removable t then (1%Z, unlink p dir) else (0%Z, dir)
      else (0%Z, dir)
  end.

Definition prune_step (acc : Z * directory) (p : string) : Z * directory :=
  let (r, dir') := process_tile p (snd acc) in ((fst acc + r)%Z, dir').

(** One batch handed to a thread pool.  Every call works on the file at
    its own path, so the calls are taken one after the other. *)
Definition prune_batch (acc : Z * directory) (batch : list string) : Z * directory :=
  fold_left prune_step batch acc.

(** The number of tiles removed, and what is left of the directory. *)
Definition prune (chunk : nat) (dir : directory) : Z * directory :=
  let pngs := filter is_png (map fst dir) in
  fold_left prune_batch (batches (List.length pngs) chunk pngs) (0%Z, dir).

End Pruning.

Module NewTiles.

(** [is_blank_tile] of the later script, with its test on the file size. *)
Definition is_blank_tile (alpha_only : bool) (t : tile_file) : bool :=
  match getsize t with
  | None => false
  | Some size =>
      if (size >? BLANK_TILE_SIZE_BYTES)%Z then false
      else match decoded t with
           | None => false
           | Some img => negb (differs_from_blank alpha_only img)
           end
  end.

Definition clean_tiles (alpha_only : bool) (dir : directory) : Z * directory :=
  prune (is_blank_tile alpha_only) CLEANUP_CHUNK dir.

End NewTiles.

Module OldTiles.

(** [is_blank_tile] of the earlier script. *)
Definition is_blank_tile (alpha_only : bool) (t : tile_file) : bool :=
  match decoded t with
  | None => false
  | Some img => negb (differs_from_blank alpha_only img)
  end.

(** The earlier script submits every path to one pool. *)
Definition clean_tiles (alpha_only : bool) (dir : directory) : Z * directory :=
  prune_batch (is_blank_tile alpha_only) (0%Z, dir) (filter is_png (map fst dir)).

End OldTiles.

(** Every pixel equals the transparent reference pixel. *)
Definition fully_transparent (img : image) : Prop :=
  forall row p, In row img -> In p row -> p = transparent.

(** Some pixel is not transparent. *)
Definition has_visible_pixel (img : image) : Prop :=
  exists row p, In row img /\ In p row /\ alpha p <> 0%Z.

Definition paths (dir : directory) : list string := map fst dir.

(** A fully transparent tile of 2000 bytes. *)
Definition big_blank_tile : tile_file :=
  mktile (Some 2000%Z) (Some [[transparent; transparent]; [transparent; transparent]])
         true.

Definition example_directory : directory := [("out/10/1/1.png", big_blank_tile)].

Definition small_blank_tile : tile_file :=
  mktile (Some 300%Z) (Some [[transparent]]) true.

(** ** Outline reduction

    The geometry capability the cleaners consume.  [G] is a geometry as
    [feat.geometry()] returns it, [Ring] a ring of a polygon. *)

Class Geometry (G Ring : Type) : Type := {
  isNull : G -> bool;
  isEmpty : G -> bool;
  isGeosValid : G -> bool;
  makeValid : G -> G;
  isMultipart : G -> bool;
  asPolygon : G -> list Ring;
  asMultiPolygon : G -> list (list Ring);
  fromPolygonXY : list Ring -> G;
  fromMultiPolygonXY : list (list Ring) -> G;
  (** [a.area() < b.area()] *)
  area_lt : G -> G -> bool;
  (** [a.boundingBox().contains(b.boundingBox())] *)
  bbox_contains : G -> G -> bool;
  (** [a.contains(b)] *)
  contains : G -> G -> bool
}.

(** A feature of the outline layer. *)
Record outline (G : Type) : Type := mkoutline
  { fid : Z; group_key : string; geometry : G }.
Arguments mkoutline {G} fid group_key geometry.
Arguments fid {G} o.
Arguments group_key {G} o.
Arguments geometry {G} o.

(** [remove_ids.add(x)] *)
Definition set_add (x : Z) (s : list Z) : list Z :=
  if existsb (Z.eqb x) s then s else x :: s.

Section Cleaners.

Context {G Ring : Type} {geo : Geometry G Ring}.

(** [[[poly[0]] for poly in parts if poly and len(poly) > 0]] *)
Definition exteriors (parts : list (list Ring)) : list (list Ring) :=
  flat_map (fun poly => match poly with
                        | ring :: _ => [[ring]]
                        | [] => []
                        end) parts.

(** A dict from feature id to geometry and the two uses made of it. *)
Fixpoint dict_set (k : Z) (v : G) (d : list (Z * G)) : list (Z * G) :=
  match d with
  | [] => [(k, v)]
  | (k', v') :: r => if Z.eqb k k' then (k, v) :: r else (k', v') :: dict_set k v r
  end.

Fixpoint dict_get (k : Z) (d : list (Z * G)) : option G :=
  match d with
  | [] => None
  | (k', v) :: r => if Z.eqb k k' then Some v else dict_get k r
  end.

(** The layer after the geometry changes collected by [ring_only] have
    been applied by feature id. *)
Definition changed (ring_only : G -> option G) (layer : list (outline G))
  : list (outline G) :=
  let changes :=
    fold_left (fun ch feat => match ring_only (geometry feat) with
                              | Some g => dict_set (fid feat) g ch
                              | None => ch
                              end) layer [] in
  map (fun feat => match dict_get (fid feat) changes with
                   | Some g => mkoutline (fid feat) (group_key feat) g
                   | None => feat
                   end) layer.

(** [with edit(layer): for fid in remove_ids: layer.deleteFeature(fid)] *)
Definition delete_features (remove_ids : list Z) (feats : list (outline G))
  : list (outline G) :=
  filter (fun feat => negb (existsb (Z.eqb (fid feat)) remove_ids)) feats.

(** [by_group.setdefault(key, []).append(f)] on a dict that keeps the
    order in which its keys came. *)
Fixpoint setdefault_append (key : string) (f : outline G)
         (d : list (string * list (outline G))) : list (string * list (outline G)) :=
  match d with
  | [] => [(key, [f])]
  | (k, arr) :: r =>
      if String.eqb key k then (k, arr ++ [f]) :: r
      else (k, arr) :: setdefault_append key f r
  end.

Definition by_group (feats : list (outline G)) : list (string * list (outline G)) :=
  fold_left (fun d f => setdefault_append (group_key f) f d) feats [].

(** What [by_group] holds: every key once, with the features of that key
    in layer order, and every feature's key. *)
Definition grouped (d : list (string * list (outline G))) (feats : list (outline G))
  : Prop :=
  NoDup (map fst d)
  /\ (forall k arr, In (k, arr) d ->
        arr = filter (fun g => String.eqb (group_key g) k) feats)
  /\ (forall k, In k (map fst d) <-> exists f, In f feats /\ group_key f = k).

(** [sorted(arr, key=lambda f: f.geometry().area())]: stable, by [<]. *)
Fixpoint insert_by_area (f : outline G) (l : list (outline G)) : list (outline G) :=
  match l with
  | [] => [f]
  | g :: r =>
      if area_lt (geometry g) (geometry f) then g :: insert_by_area f r
      else f :: l
  end.

Definition sorted_by_area (arr : list (outline G)) : list (outline G) :=
  fold_right insert_by_area [] arr.

Definition same_key (f : outline G) (g : outline G) : bool :=
  String.eqb (group_key g) (group_key f).

End Cleaners.

Module NewOutline.
Section NewOutline.

Context {G Ring : Type} {geo : Geometry G Ring}.

(** The first loop of [clean_outline_layer_batch] on one geometry: the
    geometry to store for the feature, if any. *)
Definition ring_only (g : G) : option G :=
  if (isNull g || isEmpty g)%bool then None
  else
    let g := if negb (isGeosValid g) then makeValid g else g in
    if isMultipart g then
      match exteriors (asMultiPolygon g) with
      | [] => None
      | ext => Some (fromMultiPolygonXY ext)
      end
    else
      match asPolygon g with
      | ring :: _ => Some (fromPolygonXY [ring])
      | [] => None
      end.

(** The inner [for f_big in arr[i+1:]] loop with its [continue] and
    [break]: whether some later feature contains [f_small]. *)
Definition contained_later (f_small : outline G) (later : list (outline G)) : bool :=
  existsb (fun f_big =>
             (bbox_contains (geometry f_big) (geometry f_small)
              && contains (geometry f_big) (geometry f_small))%bool) later.

(** [for i, f_small in enumerate(arr)] *)
Fixpoint scan_group (arr : list (outline G)) (remove_ids : list Z) : list Z :=
  match arr with
  | [] => remove_ids
  | f_small :: later =>
      scan_group later
                 (if contained_later f_small later
                  then set_add (fid f_small) remove_ids else remove_ids)
  end.

(** [for gk, arr in by_group.items()] *)
Definition remove_ids (feats : list (outline G)) : list Z :=
  fold_left (fun acc group => scan_group (sorted_by_area (snd group)) acc)
            (by_group feats) [].

(** The features the second half of the function reads. *)
Definition reduced (layer : list (outline G)) : list (outline G) :=
  changed ring_only layer.

(** The number reported (0 for "No contained boundaries removed.") and
    the layer left. *)
Definition clean_outline_layer_batch (layer : list (outline G))
  : nat * list (outline G) :=
  let feats := reduced layer in
  let ids := remove_ids feats in
  (List.length ids, delete_features ids feats).

End NewOutline.
End NewOutline.

Module OldOutline.
Section OldOutline.

Context {G Ring : Type} {geo : Geometry G Ring}.

Definition ring_only (g : G) : option G :=
  if negb (isMultipart g) then
    match asPolygon g with
    | ring :: _ => Some (fromPolygonXY [ring])
    | [] => None
    end
  else
    match asMultiPolygon g with
    | [] => None
    | multi => Some (fromMultiPolygonXY (exteriors multi))
    end.

Fixpoint enumerate_from {A : Type} (i : nat) (l : list A) : list (nat * A) :=
  match l with
  | [] => []
  | x :: r => (i, x) :: enumerate_from (S i) r
  end.

(** The inner [for j, other in enumerate(features)] loop. *)
Definition contained_elsewhere (features : list (outline G)) (i : nat)
           (feat : outline G) : bool :=
  existsb (fun jo =>
             (negb (Nat.eqb i (fst jo))
              && String.eqb (group_key feat) (group_key (snd jo))
              && (contains (geometry (snd jo)) (geometry feat)
                  && area_lt (geometry feat) (geometry (snd jo))))%bool)
          (enumerate_from 0 features).

Definition remove_ids (features : list (outline G)) : list Z :=
  fold_left (fun acc ifeat =>
               if contained_elsewhere features (fst ifeat) (snd ifeat)
               then set_add (fid (snd ifeat)) acc else acc)
            (enumerate_from 0 features) [].

Definition reduced (layer : list (outline G)) : list (outline G) :=
  changed ring_only layer.

(** Whether anything was removed, and the layer left. *)
Definition clean_outline_layer (layer : list (outline G))
  : bool * list (outline G) :=
  let feats := reduced layer in
  let ids := remove_ids feats in
  (negb (Nat.eqb (List.length ids) 0), delete_features ids feats).

End OldOutline.
End OldOutline.

(** Axis-parallel rectangles with integer corners, a geometry to try the
    cleaners on: [(xmin, ymin, xmax, ymax)]. *)
Definition rect : Type := (Z * Z * Z * Z)%type.

Definition rect_within (inner outer : rect) : bool :=
  let '(x0, y0, x1, y1) := inner in
  let '(u0, v0, u1, v1) := outer in
  ((u0 <=? x0) && (v0 <=? y0) && (x1 <=? u1) && (y1 <=? v1))%Z%bool.

Definition rect_area (r : rect) : Z :=
  let '(x0, y0, x1, y1) := r in ((x1 - x0) * (y1 - y0))%Z.

#[export] Instance rect_geometry : Geometry rect rect := {|
  isNull := fun _ => false;
  isEmpty := fun r => (rect_area r =? 0)%Z;
  isGeosValid := fun _ => true;
  makeValid := fun r => r;
  isMultipart := fun _ => false;
  asPolygon := fun r => [r];
  asMultiPolygon := fun r => [[r]];
  fromPolygonXY := fun rings => match rings with r :: _ => r | [] => (0, 0, 0, 0)%Z end;
  fromMultiPolygonXY := fun parts => match parts with
                                     | (r :: _) :: _ => r
                                     | _ => (0, 0, 0, 0)%Z
                                     end;
  area_lt := fun a b => (rect_area a <? rect_area b)%Z;
  bbox_contains := fun a b => rect_within b a;
  contains := fun a b => rect_within b a
|}.

(** Three nested rectangles of group ["7"] and a rectangle of group ["8"]
    that lies inside all three. *)
Definition example_layer : list (outline rect) :=
  [mkoutline 1 "7" (0, 0, 10, 10)%Z;
   mkoutline 2 "7" (1, 1, 9, 9)%Z;
   mkoutline 3 "8" (3, 3, 4, 4)%Z;
   mkoutline 4 "7" (2, 2, 8, 8)%Z].

(** ** Tile estimation

    The arithmetic the estimator is written in: Python's [float] with the
    functions of [math] it calls.  [of_int] is the conversion an [int]
    operand undergoes, [pow2 z] is [2 ** z].  The operations are total
    here: where Python raises ([math.log] of a number that is not
    positive, [math.floor] of an infinity or a NaN, a power of two too
    large for a [float]) the run has no value, and what is stated of the
    estimators in this arithmetic relates runs that return. *)

Class Arith (F : Type) : Type := {
  of_int : Z -> F;
  fadd : F -> F -> F;
  fsub : F -> F -> F;
  fmul : F -> F -> F;
  fdiv : F -> F -> F;
  pow2 : Z -> F;
  math_floor : F -> Z;
  math_log : F -> F;
  math_tan : F -> F;
  math_cos : F -> F;
  math_pi : F;
  math_radians : F -> F
}.

Fixpoint range_from (lo : Z) (n : nat) : list Z :=
  match n with
  | O => []
  | S k => lo :: range_from (lo + 1) k
  end.

(** [range(lo, hi)] *)
Definition range (lo hi : Z) : list Z := range_from lo (Z.to_nat (hi - lo)).

Section Estimator.

Context {F : Type} {arith : Arith F}.

(** [_lat_to_tile_y] *)
Definition _lat_to_tile_y (lat : F) (zoom : Z) : Z :=
  let rad := math_radians lat in
  math_floor
    (fmul (fdiv (fsub (of_int 1)
                      (fdiv (math_log (fadd (math_tan rad)
                                            (fdiv (of_int 1) (math_cos rad))))
                            math_pi))
                (of_int 2))
          (pow2 zoom)).

(** [compute_total_tiles_wgs84] of the later script. *)
Definition compute_total_tiles_wgs84 (xmin xmax ymin ymax : F) (zoom_min zoom_max : Z)
  : Z :=
  fold_left
    (fun total z =>
       let txmin := math_floor (fmul (fdiv (fadd xmin (of_int 180)) (of_int 360)) (pow2 z)) in
       let txmax := math_floor (fmul (fdiv (fadd xmax (of_int 180)) (of_int 360)) (pow2 z)) in
       let tymin := _lat_to_tile_y ymax z in
       let tymax := _lat_to_tile_y ymin z in
       (total + (txmax - txmin + 1) * (tymax - tymin + 1))%Z)
    (range zoom_min (zoom_max + 1)) 0%Z.

(** [compute_total_tiles] of the earlier script, with its inner
    [lat_to_tile_y] and its [count]. *)
Definition compute_total_tiles (xmin xmax ymin ymax : F) (zoom_min zoom_max : Z) : Z :=
  let lat_to_tile_y := fun (lat : F) (zoom : Z) =>
    let rad := math_radians lat in
    math_floor
      (fmul (fdiv (fsub (of_int 1)
                        (fdiv (math_log (fadd (math_tan rad)
                                              (fdiv (of_int 1) (math_cos rad))))
                              math_pi))
                  (of_int 2))
            (pow2 zoom)) in
  fold_left
    (fun total z =>
       let tile_x_min := math_floor (fmul (fdiv (fadd xmin (of_int 180)) (of_int 360)) (pow2 z)) in
       let tile_x_max := math_floor (fmul (fdiv (fadd xmax (of_int 180)) (of_int 360)) (pow2 z)) in
       let tile_y_min := lat_to_tile_y ymax z in
       let tile_y_max := lat_to_tile_y ymin z in
       let count := ((tile_x_max - tile_x_min + 1) * (tile_y_max - tile_y_min + 1))%Z in
       (total + count)%Z)
    (range zoom_min (zoom_max + 1)) 0%Z.

(** *** The estimate in the words of the specification *)

(** [floor((lon + 180) / 360 * 2^z)] *)
Definition tile_column (lon : F) (z : Z) : Z :=
  math_floor (fmul (fdiv (fadd lon (of_int 180)) (of_int 360)) (pow2 z)).

Definition sec (x : F) : F := fdiv (of_int 1) (math_cos x).

(** [floor((1 - ln(tan(lat) + sec(lat)) / pi) / 2 * 2^z)], the latitude
    taken in radians. *)
Definition tile_row (lat : F) (z : Z) : Z :=
  let phi := math_radians lat in
  math_floor
    (fmul (fdiv (fsub (of_int 1)
                      (fdiv (math_log (fadd (math_tan phi) (sec phi))) math_pi))
                (of_int 2))
          (pow2 z)).

(** The sum of [f z] over the [n] integers from [lo] on. *)
Fixpoint sum_from (lo : Z) (n : nat) (f : Z -> Z) : Z :=
  match n with
  | O => 0%Z
  | S k => (f lo + sum_from (lo + 1) k f)%Z
  end.

(** The tiles of one zoom level: the north bound gives the minimum row,
    the south bound the maximum row. *)
Definition level_tiles (xmin xmax ymin ymax : F) (z : Z) : Z :=
  let colMin := tile_column xmin z in
  let colMax := tile_column xmax z in
  let rowMin := tile_row ymax z in
  let rowMax := tile_row ymin z in
  ((colMax - colMin + 1) * (rowMax - rowMin + 1))%Z.

(** The sum over the integers [z] with [zoomMin <= z <= zoomMax]. *)
Definition EstimateTileCount (xmin xmax ymin ymax : F) (zoomMin zoomMax : Z) : Z :=
  sum_from zoomMin (Z.to_nat (zoomMax - zoomMin + 1))
           (level_tiles xmin xmax ymin ymax).

End Estimator.

(** Exact arithmetic over the real numbers, an instance to try the
    statements on.  It is not the arithmetic of a run: Python's [float]
    rounds, and nothing proved over this instance alone is stated of the
    scripts. *)
#[export] Instance real_arith : Arith R := {|
  of_int := IZR;
  fadd := Rplus;
  fsub := Rminus;
  fmul := Rmult;
  fdiv := Rdiv;
  pow2 := powerRZ 2;
  math_floor := Zfloor;
  math_log := ln;
  math_tan := tan;
  math_cos := cos;
  math_pi := PI;
  math_radians := fun x => (x * (PI / 180))%R
|}.

(** ** Further shapes, for the statements on the whole loop *)





Definition is_done_line (line : string) : Prop :=
  exists fn, parse_line line = Some (fn, JOB_STATUS_DONE).

(** A ledger with a line that has no comma. *)
Definition broken_folder : fs :=
  mkfs (Some (Py.writelines [entry_line "a.geojson" JOB_STATUS_DONE;
                             "b.geojson PENDING"]))
       false.

(** A ledger whose only open job is stuck [IN_PROGRESS]. *)
Definition stuck_folder : fs :=
  mkfs (Some (Py.writelines [entry_line "a.geojson" JOB_STATUS_DONE;
                             entry_line "b.geojson" JOB_STATUS_IN_PROGRESS]))
       false.

(** Whether a [clean_tiles] with the blank test [is_blank] deletes an
    entry of the directory: the path ends in [.png], the file is judged
    blank, and [os.remove] succeeds. *)
Definition deleted_by (is_blank : tile_file -> bool) (e : string * tile_file) : bool :=
  (is_png (fst e) && (is_blank (snd e) && removable (snd e)))%bool.

(** * Properties *)

(** ** Lines and files *)

Lemma ascii_eqb_true (a b : ascii) : Ascii.eqb a b = true -> a = b.
Proof. apply Ascii.eqb_eq. Qed.

Lemma append_empty_r (s : string) : (s ++ "")%string = s.
Proof. induction s; simpl; congruence. Qed.

Lemma append_assoc (a b c : string) :
  ((a ++ b) ++ c)%string = (a ++ (b ++ c))%string.
Proof. induction a; simpl; congruence. Qed.

Lemma writelines_cons (l : string) (ls : list string) :
  Py.writelines (l :: ls) = (l ++ Py.writelines ls)%string.
Proof.
  unfold Py.writelines. destruct ls as [|l' ls]; simpl.
  - now rewrite append_empty_r.
  - reflexivity.
Qed.

Lemma writelines_app (xs ys : list string) :
  Py.writelines (xs ++ ys) = (Py.writelines xs ++ Py.writelines ys)%string.
Proof.
  induction xs as [|x xs IH].
  - reflexivity.
  - change ((x :: xs) ++ ys) with (x :: (xs ++ ys)).
    rewrite !writelines_cons, IH, append_assoc. reflexivity.
Qed.

(** Writing back what was read gives the same text. *)
Lemma writelines_readlines (s : string) : Py.writelines (Py.readlines s) = s.
Proof.
  induction s as [|c r IH]; [reflexivity|].
  simpl. destruct (Ascii.eqb c Py.newline) eqn:E.
  - rewrite writelines_cons, IH. reflexivity.
  - destruct (Py.readlines r) as [|l ls] eqn:R.
    + simpl in IH. subst r. reflexivity.
    + rewrite writelines_cons in *. simpl. now rewrite IH.
Qed.

Lemma readlines_nil (s : string) : Py.readlines s = [] -> s = "".
Proof.
  destruct s as [|c r]; [reflexivity|]. simpl.
  destruct (Ascii.eqb c Py.newline); [discriminate|].
  destruct (Py.readlines r); discriminate.
Qed.

Lemma readlines_terminated (body rest : string) :
  no_newline body ->
  Py.readlines (body ++ String Py.newline rest)%string
  = (body ++ String Py.newline "")%string :: Py.readlines rest.
Proof.
  unfold no_newline. induction body as [|c b IH]; intros H.
  - reflexivity.
  - simpl in H. apply orb_false_iff in H as [Hc Hb].
    simpl. rewrite Hc, (IH Hb). reflexivity.
Qed.

Lemma readlines_open (line : string) :
  line <> "" -> no_newline line -> Py.readlines line = [line].
Proof.
  unfold no_newline. induction line as [|c r IH]; intros Hne H; [congruence|].
  simpl in H. apply orb_false_iff in H as [Hc Hr].
  simpl. rewrite Hc. destruct r as [|c' r'].
  - reflexivity.
  - rewrite IH; [reflexivity|discriminate|assumption].
Qed.

Lemma lines_ok_tail (l : string) (ls : list string) :
  lines_ok (l :: ls) -> lines_ok ls.
Proof. destruct ls; simpl; tauto. Qed.

Lemma lines_ok_cons (l : string) (ls : list string) :
  terminated l -> lines_ok ls -> lines_ok (l :: ls).
Proof. destruct ls; simpl; tauto. Qed.

Lemma lines_ok_head (l l' : string) (ls : list string) :
  lines_ok (l :: l' :: ls) -> terminated l.
Proof. simpl; tauto. Qed.

(** Reading back what was written gives the same lines. *)
Lemma readlines_writelines (lines : list string) :
  lines_ok lines -> Py.readlines (Py.writelines lines) = lines.
Proof.
  induction lines as [|l ls IH]; intros H; [reflexivity|].
  rewrite writelines_cons. destruct ls as [|l' ls'].
  - change (Py.writelines []) with "". rewrite append_empty_r.
    destruct H as [[body [-> Hb]]|[Hne Hnn]].
    + rewrite readlines_terminated by assumption. reflexivity.
    + now apply readlines_open.
  - destruct H as [[body [-> Hb]] Hrest].
    rewrite append_assoc. simpl (String Py.newline "" ++ _)%string.
    rewrite readlines_terminated by assumption.
    now rewrite IH.
Qed.

Lemma readlines_ok (s : string) : lines_ok (Py.readlines s).
Proof.
  induction s as [|c r IH]; [exact I|].
  simpl. destruct (Ascii.eqb c Py.newline) eqn:E.
  - apply ascii_eqb_true in E. subst c.
    apply lines_ok_cons; [|assumption].
    exists "". split; reflexivity.
  - destruct (Py.readlines r) as [|l ls] eqn:R.
    + simpl. right. split; [discriminate|].
      unfold no_newline. simpl. now rewrite E.
    + assert (Hc : forall x, terminated x -> terminated (String c x)).
      { intros x [body [-> Hb]]. exists (String c body). split; [reflexivity|].
        unfold no_newline in *. simpl. now rewrite E, Hb. }
      destruct ls as [|l' ls'].
      * simpl in IH |- *. destruct IH as [Ht|[Hne Hnn]].
        -- left. now apply Hc.
        -- right. split; [discriminate|].
           unfold no_newline in *. simpl. now rewrite E, Hnn.
      * destruct IH as [Ht Hrest]. split; [now apply Hc|assumption].
Qed.

Lemma lines_ok_app (pre rest : list string) :
  Forall terminated pre -> lines_ok rest -> lines_ok (pre ++ rest).
Proof.
  induction 1 as [|l pre Hl Hpre IH]; intros Hr; [assumption|].
  simpl app. apply lines_ok_cons; auto.
Qed.

Lemma lines_ok_split (pre : list string) (l : string) (post : list string) :
  lines_ok (pre ++ l :: post) -> Forall terminated pre /\ lines_ok (l :: post).
Proof.
  induction pre as [|p pre IH]; intros H.
  - split; [constructor|assumption].
  - simpl app in H. destruct (IH (lines_ok_tail _ _ H)) as [Hp Hl].
    split; [|assumption]. constructor; [|assumption].
    destruct pre; simpl app in H; eapply lines_ok_head; exact H.
Qed.

(** ** The two rewriting loops *)

Lemma claim_loop_acc (lines : list string) :
  forall acc c,
    claim_loop lines acc c
    = match claim_loop lines [] c with
      | Ok (nl, c') => Ok (acc ++ nl, c')
      | Raised e => Raised e
      end.
Proof.
  induction lines as [|line rest IH]; intros acc c.
  - simpl. now rewrite app_nil_r.
  - simpl. destruct (parse_line line) as [[fn status]|]; [|reflexivity].
    destruct (String.eqb status JOB_STATUS_PENDING), c;
      rewrite (IH (acc ++ _)), (IH [_]);
      match goal with |- context [claim_loop rest [] ?x] =>
        destruct (claim_loop rest [] x) as [[nl c']|e] end;
      simpl; rewrite <- ?app_assoc; reflexivity.
Qed.

Lemma claim_loop_cons (line : string) (rest : list string) (c : option string) :
  claim_loop (line :: rest) [] c
  = match parse_line line with
    | None => Raised ValueError
    | Some (fn, status) =>
        match String.eqb status JOB_STATUS_PENDING, c with
        | true, None =>
            match claim_loop rest [] (Some fn) with
            | Ok (nl, c') => Ok (entry_line fn JOB_STATUS_IN_PROGRESS :: nl, c')
            | Raised e => Raised e
            end
        | _, _ =>
            match claim_loop rest [] c with
            | Ok (nl, c') => Ok (line :: nl, c')
            | Raised e => Raised e
            end
        end
    end.
Proof.
  simpl. destruct (parse_line line) as [[fn status]|]; [|reflexivity].
  destruct (String.eqb status JOB_STATUS_PENDING), c;
    rewrite claim_loop_acc; reflexivity.
Qed.

(** Once a job is claimed the loop copies the remaining lines. *)
Lemma claim_loop_claimed (lines : list string) (x : string) :
  Forall parses lines -> claim_loop lines [] (Some x) = Ok (lines, Some x).
Proof.
  induction 1 as [|line rest [fn [s Hp]] _ IH]; [reflexivity|].
  rewrite claim_loop_cons, Hp, IH. now destruct (String.eqb s JOB_STATUS_PENDING).
Qed.

Lemma claim_loop_claimed_inv (lines nl : list string) (x : string) (c' : option string) :
  claim_loop lines [] (Some x) = Ok (nl, c') -> nl = lines /\ c' = Some x.
Proof.
  revert nl. induction lines as [|line rest IH]; intros nl H.
  - inversion H. auto.
  - rewrite claim_loop_cons in H.
    destruct (parse_line line) as [[fn s]|]; [|discriminate].
    assert (H' : match claim_loop rest [] (Some x) with
                 | Ok (nl0, c0) => Ok (line :: nl0, c0)
                 | Raised e => Raised e
                 end = Ok (nl, c'))
      by (destruct (String.eqb s JOB_STATUS_PENDING); exact H).
    destruct (claim_loop rest [] (Some x)) as [[nl0 c0]|e]; [|discriminate].
    inversion H'; subst. destruct (IH nl0 eq_refl) as [-> ->]. auto.
Qed.


Lemma claim_loop_none (lines : list string) :
  Forall not_pending lines -> claim_loop lines [] None = Ok (lines, None).
Proof.
  induction 1 as [|line rest [fn [s [Hp Hs]]] _ IH]; [reflexivity|].
  rewrite claim_loop_cons, Hp, IH.
  destruct (String.eqb s JOB_STATUS_PENDING) eqn:E; [|reflexivity].
  apply String.eqb_eq in E. contradiction.
Qed.

Lemma claim_loop_first (pre : list string) (line : string) (post : list string)
      (fn : string) :
  Forall not_pending pre ->
  parse_line line = Some (fn, JOB_STATUS_PENDING) ->
  Forall parses post ->
  claim_loop (pre ++ line :: post) [] None
  = Ok (pre ++ entry_line fn JOB_STATUS_IN_PROGRESS :: post, Some fn).
Proof.
  intros Hpre Hl Hpost.
  induction Hpre as [|p pre [f [s [Hp Hs]]] _ IH].
  - simpl app. rewrite claim_loop_cons, Hl. simpl String.eqb.
    now rewrite claim_loop_claimed.
  - simpl app. rewrite claim_loop_cons, Hp, IH.
    destruct (String.eqb s JOB_STATUS_PENDING) eqn:E; [|reflexivity].
    apply String.eqb_eq in E. contradiction.
Qed.

(** Whatever the ledger, a run of the loop that ends normally has copied
    every line or replaced one line whose status was [PENDING]. *)
Lemma claim_loop_inv (lines nl : list string) (c' : option string) :
  claim_loop lines [] None = Ok (nl, c') ->
  (nl = lines /\ c' = None) \/
  (exists pre line post fn,
      lines = pre ++ line :: post /\
      nl = pre ++ entry_line fn JOB_STATUS_IN_PROGRESS :: post /\
      parse_line line = Some (fn, JOB_STATUS_PENDING) /\ c' = Some fn).
Proof.
  revert nl. induction lines as [|line rest IH]; intros nl H.
  - inversion H. auto.
  - rewrite claim_loop_cons in H.
    destruct (parse_line line) as [[fn s]|] eqn:Hp; [|discriminate].
    destruct (String.eqb s JOB_STATUS_PENDING) eqn:E.
    + apply String.eqb_eq in E. subst s.
      destruct (claim_loop rest [] (Some fn)) as [[nl0 c0]|e] eqn:R; [|discriminate].
      inversion H; subst. apply claim_loop_claimed_inv in R as [-> ->].
      right. exists [], line, rest, fn. auto.
    + destruct (claim_loop rest [] None) as [[nl0 c0]|e] eqn:R; [|discriminate].
      inversion H; subst.
      destruct (IH nl0 eq_refl) as [[-> ->]|[pre [l [post [f [-> [-> [Hl ->]]]]]]]].
      * auto.
      * right. exists (line :: pre), l, post, f. auto.
Qed.

Lemma mark_loop_acc (filename : string) (lines : list string) :
  forall acc,
    mark_loop filename lines acc
    = match mark_loop filename lines [] with
      | Ok nl => Ok (acc ++ nl)
      | Raised e => Raised e
      end.
Proof.
  induction lines as [|line rest IH]; intros acc.
  - simpl. now rewrite app_nil_r.
  - simpl. destruct (parse_line line) as [[fn status]|]; [|reflexivity].
    destruct (String.eqb fn (Py.os_path_basename filename));
      rewrite (IH (acc ++ _)), (IH [_]);
      destruct (mark_loop filename rest []) as [nl|e];
      simpl; rewrite <- ?app_assoc; reflexivity.
Qed.

(** A run of the loop of [mark_job_done] that ends normally has applied
    [mark_line] to every line. *)
Lemma mark_loop_inv (filename : string) (lines nl : list string) :
  mark_loop filename lines [] = Ok nl -> nl = map (mark_line filename) lines.
Proof.
  revert nl. induction lines as [|line rest IH]; intros nl H.
  - inversion H. reflexivity.
  - simpl in H. unfold mark_line at 1. simpl map.
    destruct (parse_line line) as [[fn s]|] eqn:Hp; [|discriminate].
    fold (mark_line filename).
    destruct (String.eqb fn (Py.os_path_basename filename));
      rewrite mark_loop_acc in H;
      destruct (mark_loop filename rest []) as [nl0|e]; try discriminate;
      inversion H; subst; simpl; now rewrite (IH nl0 eq_refl).
Qed.

Lemma mark_loop_ok (filename : string) (lines : list string) :
  Forall parses lines ->
  mark_loop filename lines [] = Ok (map (mark_line filename) lines).
Proof.
  induction 1 as [|line rest [fn [s Hp]] _ IH]; [reflexivity|].
  simpl. unfold mark_line at 1. rewrite Hp.
  destruct (String.eqb fn (Py.os_path_basename filename));
    rewrite mark_loop_acc, IH; reflexivity.
Qed.

(** ** Names read from a line carry no newline *)

Lemma has_char_app (c : ascii) (a b : string) :
  has_char c (a ++ b)%string = (has_char c a || has_char c b)%bool.
Proof. induction a as [|x a IH]; simpl; [reflexivity|]. now rewrite IH, orb_assoc. Qed.

Lemma lstrip_newline_only_last (s : string) :
  newline_only_last s = true -> newline_only_last (Py.lstrip s) = true.
Proof.
  induction s as [|c r IH]; intros H; [reflexivity|].
  simpl. destruct (Py.isspace c); [|exact H].
  apply IH. simpl in H. destruct (Ascii.eqb c Py.newline); [|exact H].
  destruct r; [reflexivity|discriminate].
Qed.

Lemma rstrip_no_newline (s : string) :
  newline_only_last s = true -> no_newline (Py.rstrip s).
Proof.
  unfold no_newline. induction s as [|c r IH]; intros H; [reflexivity|].
  simpl in H. destruct (Ascii.eqb c Py.newline) eqn:E.
  - destruct r; [|discriminate]. apply ascii_eqb_true in E. subst c. reflexivity.
  - specialize (IH H). simpl. destruct (Py.rstrip r) as [|c' r'].
    + destruct (Py.isspace c); simpl; [reflexivity|now rewrite E].
    + simpl in IH |- *. now rewrite E.
Qed.

Lemma partition1_no_newline (sep : ascii) (s a b : string) :
  no_newline s -> Py.partition1 sep s = Some (a, b) -> no_newline a.
Proof.
  unfold no_newline. revert a. induction s as [|c r IH]; intros a H P; [discriminate|].
  simpl in H, P. apply orb_false_iff in H as [Hc Hr].
  destruct (Ascii.eqb c sep).
  - inversion P. reflexivity.
  - destruct (Py.partition1 sep r) as [[a' b']|]; [|discriminate].
    inversion P; subst. simpl. now rewrite Hc, (IH a' Hr eq_refl).
Qed.

Lemma parse_line_split (line fn s : string) :
  parse_line line = Some (fn, s) ->
  Py.partition1 Py.comma (Py.strip line) = Some (fn, s).
Proof.
  unfold parse_line, Py.split1.
  destruct (Py.partition1 Py.comma (Py.strip line)) as [[a b]|]; simpl; congruence.
Qed.

Lemma parse_name_no_newline (line fn s : string) :
  newline_only_last line = true -> parse_line line = Some (fn, s) -> no_newline fn.
Proof.
  intros H P. apply parse_line_split in P.
  eapply partition1_no_newline; [|exact P].
  apply rstrip_no_newline, lstrip_newline_only_last, H.
Qed.

Lemma terminated_newline_only_last (line : string) :
  terminated line -> newline_only_last line = true.
Proof.
  intros [body [-> Hb]]. unfold no_newline in Hb.
  induction body as [|c b IH]; [reflexivity|].
  simpl in Hb. apply orb_false_iff in Hb as [Hc Hb].
  simpl. rewrite Hc. auto.
Qed.

Lemma no_newline_only_last (line : string) :
  no_newline line -> newline_only_last line = true.
Proof.
  unfold no_newline. induction line as [|c r IH]; intros H; [reflexivity|].
  simpl in H. apply orb_false_iff in H as [Hc Hr]. simpl. rewrite Hc. auto.
Qed.

Lemma lines_ok_newline_only_last (lines : list string) :
  lines_ok lines -> Forall (fun l => newline_only_last l = true) lines.
Proof.
  induction lines as [|l ls IH]; intros H; constructor.
  - destruct ls; simpl in H.
    + destruct H as [Ht|[_ Hn]];
        [now apply terminated_newline_only_last|now apply no_newline_only_last].
    + now apply terminated_newline_only_last.
  - apply IH. eapply lines_ok_tail; exact H.
Qed.

Lemma entry_line_terminated (fn s : string) :
  no_newline fn -> no_newline s -> terminated (entry_line fn s).
Proof.
  intros Hf Hs. exists (fn ++ String Py.comma s)%string. split.
  - unfold entry_line. rewrite append_assoc. reflexivity.
  - unfold no_newline in *. rewrite has_char_app. simpl. now rewrite Hf, Hs.
Qed.

(** Replacing one line read from the ledger by a fresh entry for the name
    on that line gives lines that read back as they are. *)
Lemma lines_ok_replace (pre : list string) (line : string) (post : list string)
      (fn s s' : string) :
  lines_ok (pre ++ line :: post) ->
  parse_line line = Some (fn, s) -> no_newline s' ->
  lines_ok (pre ++ entry_line fn s' :: post).
Proof.
  intros H P Hs'.
  pose proof (lines_ok_newline_only_last _ H) as Hall.
  apply lines_ok_split in H as [Hpre Hrest].
  apply lines_ok_app; [assumption|].
  apply lines_ok_cons; [|eapply lines_ok_tail; exact Hrest].
  apply entry_line_terminated; [|assumption].
  rewrite Forall_forall in Hall.
  eapply parse_name_no_newline; [|exact P].
  apply Hall, in_or_app. right. now left.
Qed.

Lemma same_but_one_refl (lines : list string) : same_but_one lines lines.
Proof. split; [reflexivity|]. exists 0%nat. reflexivity. Qed.

Lemma same_but_one_replace (pre : list string) (l e : string) (post : list string) :
  same_but_one (pre ++ l :: post) (pre ++ e :: post).
Proof.
  split.
  - rewrite !length_app. reflexivity.
  - exists (List.length pre). intros j Hj.
    destruct (Nat.lt_ge_cases j (List.length pre)) as [Hlt|Hge].
    + now rewrite !nth_error_app1.
    + rewrite !nth_error_app2 by assumption.
      destruct (j - List.length pre)%nat as [|k] eqn:E; [lia|reflexivity].
Qed.

(** ** [claim_next_job] *)

(** The first [PENDING] line is the one claimed. *)
Lemma claim_next_job_claims (main_folder : string) (st : fs) (text : string)
      (pre : list string) (line : string) (post : list string) (fn : string) :
  job_list st = Some text -> lock st = false ->
  Py.readlines text = pre ++ line :: post ->
  Forall not_pending pre ->
  parse_line line = Some (fn, JOB_STATUS_PENDING) -> fn <> EmptyString ->
  Forall parses post ->
  exists text',
    claim_next_job main_folder st
    = (Ok (Some (Py.os_path_join main_folder fn)), mkfs (Some text') false)
    /\ Py.readlines text'
       = pre ++ entry_line fn JOB_STATUS_IN_PROGRESS :: post.
Proof.
  intros Hj Hl Hr Hpre Hp Hne Hpost.
  destruct st as [jl lk]. simpl in Hj, Hl. subst jl lk.
  exists (Py.writelines (pre ++ entry_line fn JOB_STATUS_IN_PROGRESS :: post)).
  split.
  - unfold claim_next_job, bind, atomic_lock, read_job_list, raise, lift,
      write_job_list, atomic_unlock, ret. simpl.
    rewrite Hr, (claim_loop_first pre line post fn Hpre Hp Hpost). simpl.
    destruct fn; [congruence|reflexivity].
  - apply readlines_writelines.
    eapply lines_ok_replace; [|exact Hp|reflexivity].
    rewrite <- Hr. apply readlines_ok.
Qed.

(** Without a [PENDING] line nothing is claimed and nothing changes. *)
Lemma claim_next_job_nothing (main_folder : string) (st : fs) (text : string) :
  job_list st = Some text -> lock st = false ->
  Forall not_pending (Py.readlines text) ->
  claim_next_job main_folder st = (Ok None, st).
Proof.
  intros Hj Hl Hnone. destruct st as [jl lk]. simpl in Hj, Hl. subst jl lk.
  unfold claim_next_job, bind, atomic_lock, read_job_list, raise, lift,
    write_job_list, atomic_unlock, ret. simpl.
  rewrite (claim_loop_none _ Hnone). simpl.
  now rewrite writelines_readlines.
Qed.

(** C2.  With the lock free and every line of the ledger of the form
    [name,status]: when [line] is the first line whose status is
    [PENDING], [claim_next_job] returns the name on it joined to the folder
    and leaves a ledger whose lines are the old ones with that line
    replaced by [name,IN_PROGRESS]; when no line is [PENDING] it returns
    [None] without raising and the folder is as before. *)
Theorem claim_next_job_first_pending (main_folder : string) (st : fs) (text : string) :
  job_list st = Some text -> lock st = false ->
  (forall pre line post fn,
      Py.readlines text = pre ++ line :: post ->
      Forall not_pending pre ->
      parse_line line = Some (fn, JOB_STATUS_PENDING) -> fn <> EmptyString ->
      Forall parses post ->
      exists text',
        claim_next_job main_folder st
        = (Ok (Some (Py.os_path_join main_folder fn)), mkfs (Some text') false)
        /\ Py.readlines text'
           = pre ++ entry_line fn JOB_STATUS_IN_PROGRESS :: post)
  /\ (Forall not_pending (Py.readlines text) ->
      claim_next_job main_folder st = (Ok None, st)).
Proof.
  intros Hj Hl. split.
  - intros pre line post fn Hr Hpre Hp Hne Hpost.
    eapply claim_next_job_claims; eassumption.
  - intros Hnone. eapply claim_next_job_nothing; eassumption.
Qed.

(** ** One line at most changes *)

Lemma mark_line_other (filename : string) (lines : list string) :
  ~ In (Py.os_path_basename filename) (entry_names lines) ->
  map (mark_line filename) lines = lines.
Proof.
  induction lines as [|line rest IH]; intros H; [reflexivity|].
  simpl. unfold entry_names in H. simpl in H. fold (entry_names rest) in H.
  rewrite IH by (intros Hin; apply H, in_or_app; now right).
  f_equal. unfold mark_line.
  destruct (parse_line line) as [[fn s]|]; [|reflexivity].
  destruct (String.eqb fn (Py.os_path_basename filename)) eqn:E; [|reflexivity].
  apply String.eqb_eq in E. exfalso. apply H. left. exact E.
Qed.

Lemma mark_lines_unique (filename : string) (lines : list string) :
  NoDup (entry_names lines) ->
  map (mark_line filename) lines = lines \/
  exists pre line post fn s,
    lines = pre ++ line :: post /\
    map (mark_line filename) lines = pre ++ entry_line fn JOB_STATUS_DONE :: post /\
    parse_line line = Some (fn, s) /\ fn = Py.os_path_basename filename.
Proof.
  induction lines as [|line rest IH]; intros H; [now left|].
  unfold entry_names in H. simpl in H. fold (entry_names rest) in H.
  destruct (parse_line line) as [[fn s]|] eqn:P.
  - simpl in H. inversion H as [|x xs Hnotin Hnd]; subst.
    destruct (String.eqb fn (Py.os_path_basename filename)) eqn:E.
    + right. exists [], line, rest, fn, s. simpl.
      unfold mark_line at 1. rewrite P, E.
      apply String.eqb_eq in E. subst fn.
      rewrite mark_line_other by assumption. auto.
    + destruct (IH Hnd) as [Hsame|[pre [l [post [f [s' [-> [Hm [Hp Hf]]]]]]]]].
      * left. simpl. unfold mark_line at 1. rewrite P, E. now rewrite Hsame.
      * right. exists (line :: pre), l, post, f, s'. simpl.
        unfold mark_line at 1. rewrite P, E, Hm. auto.
  - simpl in H. destruct (IH H) as [Hsame|[pre [l [post [f [s' [-> [Hm [Hp Hf]]]]]]]]].
    + left. simpl. unfold mark_line at 1. rewrite P. now rewrite Hsame.
    + right. exists (line :: pre), l, post, f, s'. simpl.
      unfold mark_line at 1. rewrite P, Hm. auto.
Qed.

(** C9.  Whatever the folder holds, a call of [claim_next_job] leaves a
    ledger with as many lines as before, in the same order, of which one
    at most differs from the line it replaces; so does a call of
    [mark_job_done] on a ledger in which no name occurs on two lines. *)
Theorem ledger_rewrite_changes_one_line (main_folder filename : string) (st : fs) :
  same_but_one (ledger_lines st)
               (ledger_lines (snd (claim_next_job main_folder st)))
  /\ (NoDup (entry_names (ledger_lines st)) ->
      same_but_one (ledger_lines st)
                   (ledger_lines (snd (mark_job_done main_folder filename st)))).
Proof.
  destruct st as [jl lk]. split.
  - unfold claim_next_job, bind, atomic_lock, read_job_list, raise, lift,
      write_job_list, atomic_unlock, ret, ledger_lines. simpl.
    destruct lk; [apply same_but_one_refl|].
    destruct jl as [text|]; simpl; [|apply same_but_one_refl].
    destruct (claim_loop (Py.readlines text) [] None) as [[nl c']|e] eqn:R;
      simpl; [|apply same_but_one_refl].
    apply claim_loop_inv in R
      as [[-> ->]|[pre [line [post [fn [Hr [-> [Hp ->]]]]]]]].
    + rewrite writelines_readlines. apply same_but_one_refl.
    + rewrite readlines_writelines.
      * rewrite Hr. apply same_but_one_replace.
      * eapply lines_ok_replace; [|exact Hp|reflexivity].
        rewrite <- Hr. apply readlines_ok.
  - unfold mark_job_done, bind, atomic_lock, read_job_list, raise, lift,
      write_job_list, atomic_unlock, ledger_lines. simpl.
    intros Hnd. destruct lk; [apply same_but_one_refl|].
    destruct jl as [text|]; simpl; [|apply same_but_one_refl].
    destruct (mark_loop filename (Py.readlines text) []) as [nl|e] eqn:R;
      simpl; [|apply same_but_one_refl].
    apply mark_loop_inv in R. subst nl.
    destruct (mark_lines_unique filename _ Hnd)
      as [Hsame|[pre [line [post [fn [s [Hr [Hm [Hp Hf]]]]]]]]].
    + rewrite Hsame, writelines_readlines. apply same_but_one_refl.
    + rewrite Hm, readlines_writelines.
      * rewrite Hr. apply same_but_one_replace.
      * eapply lines_ok_replace; [|exact Hp|reflexivity].
        rewrite <- Hr. apply readlines_ok.
Qed.

(** ** Entries read back, paths taken apart *)

Lemma rstrip_app (a b : string) :
  Py.rstrip b <> EmptyString -> Py.rstrip (a ++ b)%string = (a ++ Py.rstrip b)%string.
Proof.
  intros Hb. induction a as [|c a IH]; [reflexivity|].
  simpl. rewrite IH. destruct (a ++ Py.rstrip b)%string eqn:E; [|reflexivity].
  destruct a; simpl in E; [contradiction|discriminate].
Qed.

Lemma rstrip_status (s : string) :
  is_status s ->
  Py.rstrip (String Py.comma (s ++ String Py.newline EmptyString))
  = String Py.comma s.
Proof. intros [-> | [-> | ->]]; reflexivity. Qed.

Lemma partition1_app (sep : ascii) (a b : string) :
  has_char sep a = false ->
  Py.partition1 sep (a ++ String sep b) = Some (a, b).
Proof.
  induction a as [|c a IH]; intros H.
  - simpl. now rewrite Ascii.eqb_refl.
  - simpl in H. apply orb_false_iff in H as [Hc Ha].
    simpl. now rewrite Hc, (IH Ha).
Qed.

Lemma plain_name_inv (fn : string) :
  plain_name fn = true ->
  starts_nonspace fn = true /\ has_char Py.comma fn = false
  /\ has_char Py.newline fn = false /\ has_char Py.slash fn = false.
Proof.
  unfold plain_name. rewrite !andb_true_iff, !negb_true_iff. tauto.
Qed.

(** A line written for a plain name reads back as that name and status. *)
Lemma parse_entry_line (fn s : string) :
  plain_name fn = true -> is_status s -> parse_line (entry_line fn s) = Some (fn, s).
Proof.
  intros Hp Hs. apply plain_name_inv in Hp. destruct Hp as [Hst [Hc _]].
  unfold parse_line, Py.split1, Py.strip, entry_line.
  destruct fn as [|c r]; [discriminate|]. simpl in Hst.
  apply negb_true_iff in Hst.
  change (String c r ++ String Py.comma (s ++ String Py.newline ""))%string
    with (String c (r ++ String Py.comma (s ++ String Py.newline "")))%string.
  cbn [Py.lstrip]. rewrite Hst.
  change (String c (r ++ String Py.comma (s ++ String Py.newline "")))%string
    with (String c r ++ String Py.comma (s ++ String Py.newline ""))%string.
  rewrite rstrip_app; rewrite (rstrip_status s Hs); [|discriminate].
  now rewrite (partition1_app Py.comma (String c r) s Hc).
Qed.

Lemma status_no_newline (s : string) : is_status s -> no_newline s.
Proof. intros [-> | [-> | ->]]; reflexivity. Qed.








(** ** One round of the main loop *)


(** ** The statements above at a small folder *)

Lemma claim_next_job_first_pending_witness :
  exists text',
    claim_next_job "/jobs" example_folder
    = (Ok (Some (Py.os_path_join "/jobs" "b.geojson")), mkfs (Some text') false)
    /\ Py.readlines text'
       = [entry_line "a.geojson" JOB_STATUS_DONE]
           ++ entry_line "b.geojson" JOB_STATUS_IN_PROGRESS :: [].
Proof.
  apply (proj1 (claim_next_job_first_pending "/jobs" example_folder example_ledger
                 eq_refl eq_refl)
               [entry_line "a.geojson" JOB_STATUS_DONE]
               (entry_line "b.geojson" JOB_STATUS_PENDING) [] "b.geojson").
  - reflexivity.
  - constructor; [|constructor].
    exists "a.geojson", JOB_STATUS_DONE. split; [reflexivity|discriminate].
  - reflexivity.
  - discriminate.
  - constructor.
Defined.

Lemma ledger_rewrite_changes_one_line_witness :
  same_but_one (ledger_lines example_folder)
               (ledger_lines (snd (mark_job_done "/jobs" "/jobs/b.geojson"
                                                 example_folder))).
Proof.
  apply (proj2 (ledger_rewrite_changes_one_line "/jobs" "/jobs/b.geojson"
                                                example_folder)).
  vm_compute. constructor.
  - intros [H|[]]. discriminate H.
  - constructor; [intros []|constructor].
Defined.



(** C9 as the specification words it fails on the ledger written for two
    files whose names differ by a leading blank only: the names on its two
    lines are the same once stripped, and one call of [mark_job_done]
    rewrites both lines. *)
Lemma mark_job_done_rewrites_two_lines :
  build_job_list "/jobs" blank_files (mkfs None false) = (Ok tt, blank_ledger)
  /\ ledger_lines blank_ledger
     = [entry_line " a.geojson" JOB_STATUS_PENDING;
        entry_line "a.geojson" JOB_STATUS_PENDING]
  /\ mark_job_done "/jobs" "/jobs/a.geojson" blank_ledger
     = (Ok tt,
        mkfs (Some (Py.writelines [entry_line "a.geojson" JOB_STATUS_DONE;
                                   entry_line "a.geojson" JOB_STATUS_DONE]))
             false)
  /\ ~ same_but_one
         (ledger_lines blank_ledger)
         (ledger_lines (snd (mark_job_done "/jobs" "/jobs/a.geojson" blank_ledger))).
Proof.
  split; [reflexivity|]. split; [reflexivity|]. split; [reflexivity|].
  intros [_ [i H]].
  destruct i as [|i].
  - specialize (H 1%nat ltac:(discriminate)). vm_compute in H. discriminate H.
  - specialize (H 0%nat ltac:(discriminate)). vm_compute in H. discriminate H.
Qed.

(** ** Ledgers in the format [build_job_list] writes *)

Lemma terminated_lines_ok (lines : list string) :
  Forall terminated lines -> lines_ok lines.
Proof.
  intros H. rewrite <- (app_nil_r lines). now apply lines_ok_app.
Qed.

Lemma render_terminated (entries : list (string * string)) :
  Forall (fun e => plain_name (fst e) = true /\ is_status (snd e)) entries ->
  Forall terminated (render entries).
Proof.
  induction 1 as [|e es [Hp Hs] _ IH]; simpl; constructor; [|assumption].
  apply entry_line_terminated.
  - apply plain_name_inv in Hp. unfold no_newline. tauto.
  - now apply status_no_newline.
Qed.

Lemma readlines_render (entries : list (string * string)) :
  Forall (fun e => plain_name (fst e) = true /\ is_status (snd e)) entries ->
  Py.readlines (Py.writelines (render entries)) = render entries.
Proof.
  intros H. now apply readlines_writelines, terminated_lines_ok, render_terminated.
Qed.

Lemma render_parses (entries : list (string * string)) :
  Forall (fun e => plain_name (fst e) = true /\ is_status (snd e)) entries ->
  Forall parses (render entries).
Proof.
  induction 1 as [|e es [Hp Hs] _ IH]; simpl; constructor; [|assumption].
  exists (fst e), (snd e). now apply parse_entry_line.
Qed.


Lemma mark_line_render (filename : string) (entries : list (string * string)) :
  Forall (fun e => plain_name (fst e) = true /\ is_status (snd e)) entries ->
  map (mark_line filename) (render entries)
  = render (set_done (Py.os_path_basename filename) entries).
Proof.
  induction 1 as [|[fn s] es [Hp Hs] _ IH]; [reflexivity|].
  simpl in Hp, Hs. simpl. fold (render es). rewrite IH. f_equal.
  unfold mark_line. rewrite (parse_entry_line fn s Hp Hs).
  now destruct (String.eqb fn (Py.os_path_basename filename)).
Qed.





Lemma set_done_names (name : string) (entries : list (string * string)) :
  map fst (set_done name entries) = map fst entries.
Proof.
  unfold set_done. rewrite map_map. apply map_ext.
  intros [f s]. simpl. now destruct (String.eqb f name).
Qed.




Lemma well_formed_set_done (name : string) (entries : list (string * string)) :
  well_formed entries -> well_formed (set_done name entries).
Proof.
  intros [Hall Hnd]. split; [|now rewrite set_done_names].
  clear Hnd. induction Hall as [|[f s] es [Hp Hs] Hes IH]; [constructor|].
  simpl. constructor; [|assumption].
  destruct (String.eqb f name); simpl; split; try assumption.
  right. now right.
Qed.


Lemma mark_job_done_render (main_folder filename : string)
      (entries : list (string * string)) :
  well_formed entries ->
  mark_job_done main_folder filename
                (mkfs (Some (Py.writelines (render entries))) false)
  = (Ok tt,
     mkfs (Some (Py.writelines
                   (render (set_done (Py.os_path_basename filename) entries))))
          false).
Proof.
  intros [Hall Hnd].
  unfold mark_job_done, bind, atomic_lock, read_job_list, raise, lift,
    write_job_list, atomic_unlock. simpl.
  rewrite (readlines_render _ Hall), (mark_loop_ok _ _ (render_parses _ Hall)).
  simpl. now rewrite (mark_line_render _ _ Hall).
Qed.

Lemma entry_at_render (entries : list (string * string)) (lk : bool) (i : nat) :
  well_formed entries ->
  entry_at (mkfs (Some (Py.writelines (render entries))) lk) i = nth_error entries i.
Proof.
  intros [Hall _]. unfold entry_at, ledger_lines. simpl.
  rewrite (readlines_render _ Hall). unfold render. rewrite nth_error_map.
  destruct (nth_error entries i) as [[fn s]|] eqn:E; [|reflexivity].
  simpl. apply nth_error_In in E. rewrite Forall_forall in Hall.
  destruct (Hall _ E) as [Hp Hs]. now apply parse_entry_line.
Qed.


Lemma set_done_nth (name : string) (entries : list (string * string)) (i : nat)
      (fn s : string) :
  nth_error entries i = Some (fn, s) ->
  nth_error (set_done name entries) i
  = Some (fn, if String.eqb fn name then JOB_STATUS_DONE else s).
Proof.
  intros H. unfold set_done. rewrite nth_error_map, H. simpl.
  now destruct (String.eqb fn name).
Qed.

(** ** What the workers keep true *)








(** ** Group keys *)

Lemma py_eq_eq (a b : pyval) : py_eq a b = true <-> a = b.
Proof.
  destruct a, b; simpl; split; intros H; try discriminate; try reflexivity.
  - apply Z.eqb_eq in H. now subst.
  - inversion H. apply Z.eqb_refl.
  - apply String.eqb_eq in H. now subst.
  - inversion H. apply String.eqb_refl.
Qed.

Lemma in_none_or_zero (v : pyval) :
  py_in v NONE_OR_ZERO = (is_none v || py_eq v (PyInt 0))%bool.
Proof. destruct v; simpl; now rewrite ?orb_false_r. Qed.

Lemma absent_iff (v : pyval) : py_in v NONE_OR_ZERO = true <-> absent v.
Proof.
  unfold absent. rewrite in_none_or_zero, orb_true_iff, py_eq_eq.
  destruct v; simpl; intuition (try discriminate; auto).
Qed.

Lemma present_iff (v : pyval) : py_in v NONE_OR_ZERO = false <-> present v.
Proof.
  unfold present. rewrite in_none_or_zero, orb_false_iff.
  destruct v as [|z|s]; simpl; split; intros [H1 H2];
    try discriminate; try congruence; try (split; congruence).
  - split; [discriminate|]. intros E. inversion E. subst.
    rewrite Z.eqb_refl in H2. discriminate.
  - split; [reflexivity|]. apply Z.eqb_neq. congruence.
Qed.

Lemma absent_not_present (v : pyval) : absent v -> present v -> False.
Proof. intros [H|H] [H1 H2]; contradiction. Qed.

(** [norm] never returns one of the blank texts. *)
Lemma norm_text (x : pyval) (s : string) :
  norm x = PyStr s -> s <> "" /\ s <> "None" /\ s <> "0".
Proof.
  unfold norm. destruct x as [|z|s0]; simpl; try discriminate.
  destruct (String.eqb s0 "") eqn:E1; simpl; [discriminate|].
  destruct (String.eqb s0 "None") eqn:E2; simpl; [discriminate|].
  apply String.eqb_neq in E1, E2.
  destruct (isdigit s0) eqn:D.
  - destruct (int_of_str s0) eqn:I; [discriminate|].
    intros H. inversion H; subst. repeat split; try assumption.
    intros ->. discriminate I.
  - intros H. inversion H; subst. repeat split; try assumption.
    intros ->. discriminate D.
Qed.

Lemma blank_b (x : pyval) :
  py_in (norm x) [PyNone; PyStr ""; PyStr "None"; PyInt 0; PyStr "0"]
  = py_in (norm x) NONE_OR_ZERO.
Proof.
  destruct (norm x) as [|z|s] eqn:E; simpl; try reflexivity.
  destruct (norm_text x s E) as [H1 [H2 H3]].
  apply String.eqb_neq in H1, H2, H3. now rewrite H1, H2, H3.
Qed.

Lemma int_digits_total (s : string) :
  all_chars ascii_digit s = true -> forall acc, exists n, int_digits acc s = Some n.
Proof.
  induction s as [|c r IH]; intros H acc; simpl.
  - now exists acc.
  - simpl in H. apply andb_true_iff in H as [Hc Hr]. rewrite Hc. now apply IH.
Qed.

Lemma digits_isdigit (s : string) :
  all_chars ascii_digit s = true -> all_chars isdigit_char s = true.
Proof.
  induction s as [|c r IH]; intros H; [reflexivity|].
  simpl in H |- *. apply andb_true_iff in H as [Hc Hr].
  rewrite (IH Hr). unfold isdigit_char. now rewrite Hc.
Qed.

(** A text of decimal digits that [int] accepts is normalized to the
    integer it spells. *)
Lemma norm_digits (s : string) :
  s <> "" -> all_chars ascii_digit s = true ->
  (Z.of_nat (String.length s) <= int_max_str_digits)%Z ->
  exists n, int_of_str s = Some n /\ norm (PyStr s) = PyInt n.
Proof.
  intros Hne Hd Hlen. destruct (int_digits_total s Hd 0%Z) as [n Hn].
  assert (Hi : int_of_str s = Some n).
  { unfold int_of_str.
    destruct (Z.ltb_spec int_max_str_digits (Z.of_nat (String.length s)));
      [lia|exact Hn]. }
  exists n. split; [exact Hi|]. unfold norm. simpl.
  apply String.eqb_neq in Hne. rewrite Hne. simpl.
  destruct (String.eqb_spec s "None") as [->|_]; [discriminate Hd|].
  simpl. unfold isdigit. rewrite Hne, (digits_isdigit s Hd). simpl.
  now rewrite Hi.
Qed.

(** A text of digits too long for [int] is kept as it is. *)
Lemma norm_long_digits (s : string) :
  isdigit s = true ->
  (int_max_str_digits < Z.of_nat (String.length s))%Z ->
  norm (PyStr s) = PyStr s.
Proof.
  intros Hd Hlen. unfold norm. simpl.
  assert (Hne : String.eqb s "" = false).
  { destruct s; [discriminate Hd|reflexivity]. }
  rewrite Hne. simpl.
  destruct (String.eqb_spec s "None") as [->|_]; [discriminate Hd|].
  simpl. rewrite Hd. unfold int_of_str.
  destruct (Z.ltb_spec int_max_str_digits (Z.of_nat (String.length s)));
    [reflexivity|lia].
Qed.

Lemma old_key_is_new_key (feat : feature) :
  Old.get_group_key feat = New.get_group_key feat.
Proof.
  unfold New.get_group_key, Old.get_group_key. cbv zeta.
  rewrite <- !negb_orb, <- !in_none_or_zero. reflexivity.
Qed.

(** The [MT] branch with its tests sorted out. *)
Lemma get_group_key_MT_cases (feat : feature) :
  type_code feat = "MT" ->
  New.get_group_key feat
  = let m := norm (safe_val feat "M") in
    let mn := norm (safe_val feat "MN") in
    let b := norm (safe_val feat "B") in
    if py_in m NONE_OR_ZERO
    then (if py_in mn NONE_OR_ZERO then "0" else str mn)
    else if py_in mn NONE_OR_ZERO then str m
    else if py_eq m mn then str m
    else if py_in b NONE_OR_ZERO then str mn
    else (str b ++ String Py.slash (str mn))%string.
Proof.
  intros Ht. unfold New.get_group_key. rewrite Ht. simpl String.eqb.
  cbv beta iota zeta. rewrite blank_b.
  destruct (py_in (norm (safe_val feat "M")) NONE_OR_ZERO) eqn:Em;
    destruct (py_in (norm (safe_val feat "MN")) NONE_OR_ZERO) eqn:Emn;
    simpl; try reflexivity.
  apply present_iff in Em, Emn. destruct Em as [Hm _], Emn as [Hmn _].
  assert (Em : is_none (norm (safe_val feat "M")) = false)
    by (destruct (norm (safe_val feat "M")); [contradiction|reflexivity..]).
  assert (Emn : is_none (norm (safe_val feat "MN")) = false)
    by (destruct (norm (safe_val feat "MN")); [contradiction|reflexivity..]).
  rewrite Em, Emn. simpl.
  repeat match goal with
         | |- context [if ?c then _ else _] => destruct c
         end; reflexivity.
Qed.

(** C3.  For a feature whose type code is [MT], in both scripts, with
    [m], [mn] and [b] the normalized values of [M], [MN] and [B]: both [m]
    and [mn] absent gives ["0"]; one of them present gives its string; both
    present and equal gives that value's string; both present and different
    gives the string of [mn], preceded by the string of [b] and a slash
    when [b] is present.  The five tuples of the specification get the keys
    it lists in both scripts; [None], the empty text and zero are absent
    once normalized; a text of at most 4300 decimal digits is normalized
    to its integer, and a longer text of digits, which [int] refuses, is
    kept as a text. *)
Theorem get_group_key_MT :
  (forall (gk : feature -> string) (feat : feature),
      gk = New.get_group_key \/ gk = Old.get_group_key ->
      type_code feat = "MT" ->
      let m := norm (safe_val feat "M") in
      let mn := norm (safe_val feat "MN") in
      let b := norm (safe_val feat "B") in
      let key := gk feat in
      (absent m -> absent mn -> key = "0")
      /\ (present m -> absent mn -> key = str m)
      /\ (absent m -> present mn -> key = str mn)
      /\ (present m -> present mn -> m = mn -> key = str m)
      /\ (present m -> present mn -> m <> mn -> absent b -> key = str mn)
      /\ (present m -> present mn -> m <> mn -> present b ->
          key = (str b ++ String Py.slash (str mn))%string))
  /\ (New.get_group_key example_mt_equal = "5"
      /\ New.get_group_key example_mt_different = "3/8"
      /\ New.get_group_key example_mt_blank = "0"
      /\ New.get_group_key example_k = "7"
      /\ New.get_group_key example_other = "4")
  /\ (Old.get_group_key example_mt_equal = "5"
      /\ Old.get_group_key example_mt_different = "3/8"
      /\ Old.get_group_key example_mt_blank = "0"
      /\ Old.get_group_key example_k = "7"
      /\ Old.get_group_key example_other = "4")
  /\ (absent (norm PyNone) /\ absent (norm (PyStr "")) /\ absent (norm (PyInt 0))
      /\ absent (norm (PyStr "0")))
  /\ (forall s : string,
         s <> "" -> all_chars ascii_digit s = true ->
         (Z.of_nat (String.length s) <= int_max_str_digits)%Z ->
         exists n, int_of_str s = Some n /\ norm (PyStr s) = PyInt n)
  /\ (forall s : string,
         isdigit s = true ->
         (int_max_str_digits < Z.of_nat (String.length s))%Z ->
         norm (PyStr s) = PyStr s).
Proof.
  split; [|split; [repeat split; reflexivity|split;
                   [repeat split; reflexivity|split; [|split]]]];
    [|unfold absent; simpl; auto|exact norm_digits|exact norm_long_digits].
  intros gk feat Hgk Ht m mn b key.
  assert (Hnew : key = New.get_group_key feat).
  { unfold key. destruct Hgk as [-> | ->];
      [reflexivity|apply old_key_is_new_key]. }
  assert (Hk : key = if py_in m NONE_OR_ZERO
                     then (if py_in mn NONE_OR_ZERO then "0" else str mn)
                     else if py_in mn NONE_OR_ZERO then str m
                     else if py_eq m mn then str m
                     else if py_in b NONE_OR_ZERO then str mn
                     else (str b ++ String Py.slash (str mn))%string)
    by (rewrite Hnew; apply get_group_key_MT_cases; exact Ht).
  clear Hnew. clearbody key m mn b. subst key.
  destruct (py_in m NONE_OR_ZERO) eqn:Em;
    [apply absent_iff in Em | apply present_iff in Em];
    (destruct (py_in mn NONE_OR_ZERO) eqn:Emn;
     [apply absent_iff in Emn | apply present_iff in Emn]);
    try (repeat split; intros;
         solve [reflexivity | exfalso; eauto using absent_not_present]).
  destruct (py_eq m mn) eqn:E.
  - apply py_eq_eq in E.
    repeat split; intros;
      solve [reflexivity | contradiction
             | exfalso; eauto using absent_not_present].
  - assert (Hne : m <> mn) by (intros H; apply py_eq_eq in H; congruence).
    destruct (py_in b NONE_OR_ZERO) eqn:Eb;
      [apply absent_iff in Eb | apply present_iff in Eb];
      repeat split; intros;
        solve [reflexivity | contradiction
               | exfalso; eauto using absent_not_present].
Qed.

(** C10.  The two scripts give every feature the same key. *)
Theorem get_group_key_variants_agree (feat : feature) :
  New.get_group_key feat = Old.get_group_key feat.
Proof.
  unfold New.get_group_key, Old.get_group_key. cbv zeta.
  rewrite <- !negb_orb, <- !in_none_or_zero. reflexivity.
Qed.

Lemma get_group_key_MT_witness :
  Old.get_group_key example_mt_different
  = (str (PyInt 3) ++ String Py.slash (str (PyInt 8)))%string.
Proof.
  apply (proj2 (proj2 (proj2 (proj2 (proj2
           (proj1 get_group_key_MT Old.get_group_key example_mt_different
                  (or_intror eq_refl) eq_refl)))))).
  - split; discriminate.
  - split; discriminate.
  - discriminate.
  - split; discriminate.
Defined.

(** C3 as the specification words it fails on a text of digits that is
    too long for [int]: a zero written with 4301 digits is not parsed,
    stays a text and counts as present, so that the key of the tuple is
    that text in both scripts, where the dispatch on the parsed value
    gives ["0"]. *)
Lemma long_digit_text_is_kept :
  all_chars ascii_digit long_zero = true
  /\ String.length long_zero = 4301%nat
  /\ norm (PyStr long_zero) = PyStr long_zero
  /\ ~ (exists n : Z, norm (PyStr long_zero) = PyInt n)
  /\ type_code example_long_zero = "MT"
  /\ New.get_group_key example_long_zero = long_zero
  /\ Old.get_group_key example_long_zero = long_zero
  /\ long_zero <> "0".
Proof.
  assert (Hn : norm (PyStr long_zero) = PyStr long_zero) by (vm_compute; reflexivity).
  split; [vm_compute; reflexivity|]. split; [vm_compute; reflexivity|].
  split; [exact Hn|]. split; [intros [n H]; rewrite Hn in H; discriminate H|].
  split; [reflexivity|]. split; [vm_compute; reflexivity|].
  split; [vm_compute; reflexivity|]. vm_compute. discriminate.
Qed.

(** ** Blank tiles *)

Lemma zip_with_map {A B C : Type} (f : A -> B -> C) (g : A -> B) (xs : list A) :
  zip_with f xs (map g xs) = map (fun x => f x (g x)) xs.
Proof. induction xs as [|x xs IH]; simpl; congruence. Qed.

Lemma difference_from_blank (img : image) :
  ImageChops_difference img (Image_new_transparent img)
  = map (map (fun p => pixel_difference p transparent)) img.
Proof.
  unfold ImageChops_difference, Image_new_transparent.
  rewrite zip_with_map. apply map_ext. intros row. apply zip_with_map.
Qed.

Lemma abs_minus_zero (x : Z) : (Z.abs (x - 0) =? 0)%Z = (x =? 0)%Z.
Proof.
  rewrite Z.sub_0_r. destruct (Z.eqb_spec x 0) as [->|H]; [reflexivity|].
  apply Z.eqb_neq. lia.
Qed.

Lemma pixel_is_zero_difference (alpha_only : bool) (p : pixel) :
  pixel_is_zero alpha_only (pixel_difference p transparent)
  = pixel_is_zero alpha_only p.
Proof.
  unfold pixel_is_zero, pixel_difference. simpl.
  now rewrite !abs_minus_zero.
Qed.

Lemma forallb_map_ext {A B : Type} (f : A -> B) (g : B -> bool) (h : A -> bool)
      (l : list A) :
  (forall x, g (f x) = h x) -> forallb g (map f l) = forallb h l.
Proof.
  intros H. induction l as [|x l IH]; simpl; [reflexivity|]. now rewrite H, IH.
Qed.

(** The comparison, pixel by pixel. *)
Lemma differs_from_blank_pixels (alpha_only : bool) (img : image) :
  differs_from_blank alpha_only img
  = negb (forallb (forallb (pixel_is_zero alpha_only)) img).
Proof.
  unfold differs_from_blank, getbbox_is_None. rewrite difference_from_blank.
  f_equal. apply forallb_map_ext. intros row.
  apply forallb_map_ext. intros p. apply pixel_is_zero_difference.
Qed.

Lemma transparent_not_differs (alpha_only : bool) (img : image) :
  fully_transparent img -> differs_from_blank alpha_only img = false.
Proof.
  intros H. rewrite differs_from_blank_pixels. apply negb_false_iff.
  apply forallb_forall. intros row Hrow.
  apply forallb_forall. intros p Hp.
  rewrite (H row p Hrow Hp). now destruct alpha_only.
Qed.

Lemma pixel_is_zero_alpha (alpha_only : bool) (p : pixel) :
  pixel_is_zero alpha_only p = true -> alpha p = 0%Z.
Proof.
  unfold pixel_is_zero. destruct alpha_only.
  - apply Z.eqb_eq.
  - rewrite !andb_true_iff. intros [_ H]. now apply Z.eqb_eq.
Qed.

Lemma not_differs_alpha (alpha_only : bool) (img : image) (row : list pixel)
      (p : pixel) :
  differs_from_blank alpha_only img = false ->
  In row img -> In p row -> alpha p = 0%Z.
Proof.
  rewrite differs_from_blank_pixels. intros H Hrow Hp.
  apply negb_false_iff in H. rewrite forallb_forall in H.
  specialize (H row Hrow). rewrite forallb_forall in H.
  eapply pixel_is_zero_alpha, H, Hp.
Qed.

Lemma visible_differs (alpha_only : bool) (img : image) :
  has_visible_pixel img -> differs_from_blank alpha_only img = true.
Proof.
  intros [row [p [Hrow [Hp Ha]]]].
  destruct (differs_from_blank alpha_only img) eqn:E; [reflexivity|].
  exfalso. apply Ha. eapply not_differs_alpha; eassumption.
Qed.

(** *** Paths and removal *)

Lemma lookup_in (dir : directory) (p : string) (t : tile_file) :
  NoDup (paths dir) -> In (p, t) dir -> lookup p dir = Some t.
Proof.
  unfold lookup, paths. induction dir as [|[q u] dir IH]; intros Hnd Hin; [contradiction|].
  simpl in Hnd. inversion Hnd as [|x xs Hnotin Hnd']; subst.
  simpl. destruct (String.eqb_spec q p) as [->|Hne].
  - destruct Hin as [He|Hin]; [now inversion He|].
    exfalso. apply Hnotin. apply in_map_iff. now exists (p, t).
  - destruct Hin as [He|Hin]; [inversion He; contradiction|]. now apply IH.
Qed.

Lemma in_unlink (dir : directory) (p q : string) (t : tile_file) :
  In (p, t) (unlink q dir) <-> In (p, t) dir /\ p <> q.
Proof.
  unfold unlink. rewrite filter_In. simpl. rewrite negb_true_iff.
  split; intros [H1 H2]; split; try assumption.
  - now apply String.eqb_neq.
  - now apply String.eqb_neq.
Qed.

Lemma paths_unlink (dir : directory) (p q : string) :
  In p (paths (unlink q dir)) -> In p (paths dir) /\ p <> q.
Proof.
  unfold paths. rewrite !in_map_iff. intros [[p' t] [Hp Hin]]. simpl in Hp. subst p'.
  apply in_unlink in Hin as [Hin Hne]. split; [|assumption]. now exists (p, t).
Qed.

Lemma nodup_unlink (dir : directory) (q : string) :
  NoDup (paths dir) -> NoDup (paths (unlink q dir)).
Proof.
  unfold paths, unlink. induction dir as [|[p t] dir IH]; intros H; [constructor|].
  simpl in H. inversion H as [|x xs Hnotin Hnd]; subst.
  simpl. destruct (String.eqb p q); simpl; [now apply IH|].
  constructor; [|now apply IH].
  intros Hin. apply Hnotin. rewrite in_map_iff in Hin |- *.
  destruct Hin as [e [He Hin]]. exists e. split; [assumption|].
  now apply filter_In in Hin as [Hin _].
Qed.

Section PruningFacts.

Variable is_blank : tile_file -> bool.

Lemma process_tile_nodup (q : string) (dir : directory) :
  NoDup (paths dir) -> NoDup (paths (snd (process_tile is_blank q dir))).
Proof.
  intros H. unfold process_tile. destruct (lookup q dir) as [u|]; [|exact H].
  destruct (is_blank u); [|exact H]. destruct (removable u); [|exact H].
  now apply nodup_unlink.
Qed.

Lemma process_tile_paths (q p : string) (dir : directory) :
  In p (paths (snd (process_tile is_blank q dir))) -> In p (paths dir).
Proof.
  unfold process_tile. destruct (lookup q dir) as [u|]; [|auto].
  destruct (is_blank u); [|auto]. destruct (removable u); [|auto].
  simpl. intros H. now apply paths_unlink in H.
Qed.

Lemma process_tile_other (q p : string) (t : tile_file) (dir : directory) :
  p <> q -> In (p, t) dir -> In (p, t) (snd (process_tile is_blank q dir)).
Proof.
  intros Hne Hin. unfold process_tile. destruct (lookup q dir) as [u|]; [|exact Hin].
  destruct (is_blank u); [|exact Hin]. destruct (removable u); [|exact Hin].
  simpl. now apply in_unlink.
Qed.

Lemma prune_step_snd (acc : Z * directory) (q : string) :
  snd (prune_step is_blank acc q) = snd (process_tile is_blank q (snd acc)).
Proof. unfold prune_step. now destruct (process_tile is_blank q (snd acc)). Qed.

Lemma prune_paths (ps : list string) :
  forall (acc : Z * directory) (p : string),
    In p (paths (snd (fold_left (prune_step is_blank) ps acc))) ->
    In p (paths (snd acc)).
Proof.
  induction ps as [|q ps IH]; intros acc p H; [exact H|].
  simpl in H. apply IH in H. rewrite prune_step_snd in H.
  now apply process_tile_paths in H.
Qed.

(** A file that is not both blank and removable survives. *)
Lemma prune_keeps (ps : list string) :
  forall (acc : Z * directory) (p : string) (t : tile_file),
    NoDup (paths (snd acc)) -> In (p, t) (snd acc) ->
    (is_blank t && removable t)%bool = false ->
    In (p, t) (snd (fold_left (prune_step is_blank) ps acc)).
Proof.
  induction ps as [|q ps IH]; intros acc p t Hnd Hin Hkeep; [exact Hin|].
  simpl. apply IH; [| |exact Hkeep].
  - rewrite prune_step_snd. now apply process_tile_nodup.
  - rewrite prune_step_snd. destruct (String.eqb_spec p q) as [->|Hne].
    + unfold process_tile. rewrite (lookup_in _ _ _ Hnd Hin).
      destruct (is_blank t); [|exact Hin].
      simpl in Hkeep. rewrite Hkeep. exact Hin.
    + now apply process_tile_other.
Qed.

(** A blank, removable file whose path is visited is gone afterwards. *)
Lemma prune_removes (ps : list string) :
  forall (acc : Z * directory) (p : string) (t : tile_file),
    NoDup (paths (snd acc)) -> In (p, t) (snd acc) -> In p ps ->
    is_blank t = true -> removable t = true ->
    ~ In p (paths (snd (fold_left (prune_step is_blank) ps acc))).
Proof.
  induction ps as [|q ps IH]; intros acc p t Hnd Hin Hp Hb Hr; [contradiction|].
  simpl. destruct (String.eqb_spec p q) as [->|Hne].
  - intros H. apply prune_paths in H. rewrite prune_step_snd in H.
    unfold process_tile in H. rewrite (lookup_in _ _ _ Hnd Hin), Hb, Hr in H.
    simpl in H. apply paths_unlink in H as [_ H]. now apply H.
  - destruct Hp as [Hp|Hp]; [congruence|].
    apply (IH _ p t); try assumption.
    + rewrite prune_step_snd. now apply process_tile_nodup.
    + rewrite prune_step_snd. now apply process_tile_other.
Qed.

Lemma fold_batches (bs : list (list string)) :
  forall acc,
    fold_left (prune_batch is_blank) bs acc
    = fold_left (prune_step is_blank) (List.concat bs) acc.
Proof.
  induction bs as [|b bs IH]; intros acc; [reflexivity|].
  simpl. rewrite fold_left_app. apply IH.
Qed.

End PruningFacts.

Lemma concat_batches {A : Type} (n : nat) (fuel : nat) :
  forall l : list A,
    (0 < n)%nat -> (List.length l <= fuel)%nat -> List.concat (batches fuel n l) = l.
Proof.
  induction fuel as [|fuel IH]; intros l Hn Hl.
  - destruct l; [reflexivity|simpl in Hl; lia].
  - destruct l as [|x l]; [reflexivity|].
    cbn [batches List.concat]. rewrite IH; [apply firstn_skipn|assumption|].
    rewrite length_skipn. cbn [List.length] in Hl |- *. lia.
Qed.

(** The later script visits the same paths as one pass would. *)
Lemma new_clean_tiles_fold (alpha_only : bool) (dir : directory) :
  NewTiles.clean_tiles alpha_only dir
  = fold_left (prune_step (NewTiles.is_blank_tile alpha_only))
              (filter is_png (paths dir)) (0%Z, dir).
Proof.
  unfold NewTiles.clean_tiles, prune. rewrite fold_batches.
  rewrite concat_batches; [reflexivity|unfold CLEANUP_CHUNK; lia|apply Nat.le_refl].
Qed.

(** C6, as the scripts have it.  For a tile file at a [.png] path of the
    output directory, whichever channels [getbbox] inspects: a tile all of
    whose pixels equal the transparent reference pixel is deleted by the
    later script when its size is at most [BLANK_TILE_SIZE_BYTES] and
    [os.remove] succeeds, and by the earlier script when [os.remove]
    succeeds; a tile with a pixel of non-zero alpha is kept by both,
    whatever its size; so is a tile that cannot be decoded; the later
    script keeps every tile above the size threshold; and a tile judged
    blank has alpha exactly zero in every pixel, no tolerance applies. *)
Theorem tile_pruning_decisions (alpha_only : bool) (dir : directory)
        (p : string) (t : tile_file) :
  NoDup (paths dir) -> In (p, t) dir -> is_png p = true ->
  let kept_new := snd (NewTiles.clean_tiles alpha_only dir) in
  let kept_old := snd (OldTiles.clean_tiles alpha_only dir) in
  (forall img size,
      decoded t = Some img -> fully_transparent img ->
      getsize t = Some size -> (size <= BLANK_TILE_SIZE_BYTES)%Z ->
      removable t = true -> ~ In p (paths kept_new))
  /\ (forall img,
         decoded t = Some img -> fully_transparent img ->
         removable t = true -> ~ In p (paths kept_old))
  /\ (forall img,
         decoded t = Some img -> has_visible_pixel img ->
         In (p, t) kept_new /\ In (p, t) kept_old)
  /\ (decoded t = None -> In (p, t) kept_new /\ In (p, t) kept_old)
  /\ (forall size,
         getsize t = Some size -> (size > BLANK_TILE_SIZE_BYTES)%Z ->
         In (p, t) kept_new)
  /\ (forall img row px,
         decoded t = Some img ->
         NewTiles.is_blank_tile alpha_only t = true
         \/ OldTiles.is_blank_tile alpha_only t = true ->
         In row img -> In px row -> alpha px = 0%Z).
Proof.
  intros Hnd Hin Hpng kept_new kept_old. subst kept_new kept_old.
  rewrite new_clean_tiles_fold. unfold OldTiles.clean_tiles, prune_batch.
  assert (Hvisit : In p (filter is_png (paths dir))).
  { apply filter_In. split; [|assumption].
    unfold paths. apply in_map_iff. now exists (p, t). }
  split; [|split; [|split; [|split; [|split]]]].
  - intros img size Hd Hblank Hsize Hle Hrm.
    apply (prune_removes _ _ (0%Z, dir) p t); try assumption.
    unfold NewTiles.is_blank_tile. rewrite Hsize, Hd.
    destruct (Z.gtb_spec size BLANK_TILE_SIZE_BYTES) as [Hgt|_]; [lia|].
    now rewrite transparent_not_differs.
  - intros img Hd Hblank Hrm.
    apply (prune_removes _ _ (0%Z, dir) p t); try assumption.
    unfold OldTiles.is_blank_tile. rewrite Hd.
    now rewrite transparent_not_differs.
  - intros img Hd Hvis. split.
    + apply (prune_keeps _ _ (0%Z, dir)); try assumption.
      unfold NewTiles.is_blank_tile. rewrite Hd.
      destruct (getsize t) as [size|]; [|reflexivity].
      destruct (size >? BLANK_TILE_SIZE_BYTES)%Z; [reflexivity|].
      now rewrite (visible_differs _ _ Hvis).
    + apply (prune_keeps _ _ (0%Z, dir)); try assumption.
      unfold OldTiles.is_blank_tile. rewrite Hd.
      now rewrite (visible_differs _ _ Hvis).
  - intros Hd. split.
    + apply (prune_keeps _ _ (0%Z, dir)); try assumption.
      unfold NewTiles.is_blank_tile. rewrite Hd.
      destruct (getsize t) as [size|]; [|reflexivity].
      now destruct (size >? BLANK_TILE_SIZE_BYTES)%Z.
    + apply (prune_keeps _ _ (0%Z, dir)); try assumption.
      unfold OldTiles.is_blank_tile. now rewrite Hd.
  - intros size Hsize Hgt.
    apply (prune_keeps _ _ (0%Z, dir)); try assumption.
    unfold NewTiles.is_blank_tile. rewrite Hsize.
    destruct (Z.gtb_spec size BLANK_TILE_SIZE_BYTES) as [_|Hle]; [reflexivity|lia].
  - intros img row px Hd Hblank Hrow Hpx.
    apply (not_differs_alpha alpha_only img row px); try assumption.
    destruct Hblank as [H|H].
    + unfold NewTiles.is_blank_tile in H. rewrite Hd in H.
      destruct (getsize t) as [size|]; [|discriminate].
      destruct (size >? BLANK_TILE_SIZE_BYTES)%Z; [discriminate|].
      now apply negb_true_iff in H.
    + unfold OldTiles.is_blank_tile in H. rewrite Hd in H.
      now apply negb_true_iff in H.
Qed.

Lemma tile_pruning_decisions_witness :
  ~ In "t/1.png"
       (paths (snd (NewTiles.clean_tiles true [("t/1.png", small_blank_tile)]))).
Proof.
  apply (proj1 (tile_pruning_decisions true [("t/1.png", small_blank_tile)]
                  "t/1.png" small_blank_tile
                  (NoDup_cons _ (fun H : In _ [] => H) (NoDup_nil _))
                  (or_introl eq_refl) eq_refl)
               [[transparent]] 300%Z).
  - reflexivity.
  - intros row px [<-|[]] [<-|[]]. reflexivity.
  - reflexivity.
  - vm_compute. discriminate.
  - reflexivity.
Defined.

(** C6 as the specification words it fails in the later script: a fully
    transparent tile of 2000 bytes is not decoded and stays. *)
Lemma big_blank_tile_is_kept :
  is_png "out/10/1/1.png" = true
  /\ (exists img, decoded big_blank_tile = Some img /\ fully_transparent img)
  /\ NewTiles.clean_tiles true example_directory = (0%Z, example_directory)
  /\ NewTiles.clean_tiles false example_directory = (0%Z, example_directory)
  /\ In "out/10/1/1.png"
        (paths (snd (NewTiles.clean_tiles true example_directory))).
Proof.
  split; [reflexivity|]. split.
  - eexists. split; [reflexivity|].
    intros row px [<-|[<-|[]]] [<-|[<-|[]]]; reflexivity.
  - split; [vm_compute; reflexivity|]. split; [vm_compute; reflexivity|].
    vm_compute. now left.
Qed.

(** ** Outline reduction *)

Lemma nodup_map_filter {K A : Type} (key : A -> K) (keep : A -> bool)
      (xs : list A) :
  NoDup (map key xs) -> NoDup (map key (filter keep xs)).
Proof.
  intros Hnd. induction xs as [|x xs IH]; [constructor|].
  simpl in Hnd. inversion Hnd as [|y ys Hnotin Hnd']; subst.
  simpl. destruct (keep x); simpl; [|now apply IH].
  constructor; [|now apply IH].
  intros Hin. apply Hnotin. rewrite in_map_iff in Hin |- *.
  destruct Hin as [e [He Hin]]. exists e. split; [assumption|].
  now apply filter_In in Hin as [Hin _].
Qed.

Lemma NoDup_map_inj {A B : Type} (f : A -> B) (l : list A) (a b : A) :
  NoDup (map f l) -> In a l -> In b l -> f a = f b -> a = b.
Proof.
  induction l as [|x l IH]; intros Hnd Ha Hb Hf; [contradiction|].
  simpl in Hnd. inversion Hnd as [|y ys Hnotin Hnd']; subst.
  destruct Ha as [->|Ha], Hb as [->|Hb].
  - reflexivity.
  - exfalso. apply Hnotin. rewrite Hf. now apply in_map.
  - exfalso. apply Hnotin. rewrite <- Hf. now apply in_map.
  - now apply IH.
Qed.

Lemma set_add_in (x y : Z) (s : list Z) : In y (set_add x s) <-> y = x \/ In y s.
Proof.
  unfold set_add. destruct (existsb (Z.eqb x) s) eqn:E.
  - split; [auto|]. intros [->|H]; [|assumption].
    apply existsb_exists in E as [z [Hz Hxz]]. apply Z.eqb_eq in Hxz. now subst.
  - simpl. split; intros [H|H]; auto.
Qed.

Lemma existsb_eqb_in (x : Z) (s : list Z) : existsb (Z.eqb x) s = true <-> In x s.
Proof.
  rewrite existsb_exists. split.
  - intros [y [Hy Hxy]]. apply Z.eqb_eq in Hxy. now subst.
  - intros H. exists x. split; [assumption|apply Z.eqb_refl].
Qed.

Section CleanerFacts.

Context {G Ring : Type} {geo : Geometry G Ring}.

Lemma changed_fids (ring_only : G -> option G) (layer : list (outline G)) :
  map fid (changed ring_only layer) = map fid layer.
Proof.
  unfold changed. rewrite map_map. apply map_ext. intros feat.
  now destruct (dict_get (fid feat) _).
Qed.

Lemma delete_features_in (ids : list Z) (feats : list (outline G)) (S : outline G) :
  In S (delete_features ids feats) <-> In S feats /\ ~ In (fid S) ids.
Proof.
  unfold delete_features. rewrite filter_In, negb_true_iff.
  rewrite <- existsb_eqb_in. split; intros [H1 H2]; split; try assumption.
  - now rewrite H2.
  - now destruct (existsb (Z.eqb (fid S)) ids).
Qed.

(** *** The groups *)

Lemma by_group_snoc (pre : list (outline G)) (f : outline G) :
  by_group (pre ++ [f]) = setdefault_append (group_key f) f (by_group pre).
Proof. unfold by_group. now rewrite fold_left_app. Qed.

Lemma setdefault_keys (key : string) (f : outline G)
      (d : list (string * list (outline G))) (k : string) :
  In k (map fst (setdefault_append key f d)) <-> k = key \/ In k (map fst d).
Proof.
  induction d as [|[k0 arr] d IH]; simpl.
  - intuition.
  - destruct (String.eqb_spec key k0) as [->|Hne]; simpl.
    + intuition.
    + rewrite IH. intuition.
Qed.

Lemma setdefault_nodup (key : string) (f : outline G)
      (d : list (string * list (outline G))) :
  NoDup (map fst d) -> NoDup (map fst (setdefault_append key f d)).
Proof.
  induction d as [|[k0 arr] d IH]; intros H; simpl.
  - constructor; [intros []|constructor].
  - simpl in H. inversion H as [|y ys Hnotin Hnd]; subst.
    destruct (String.eqb_spec key k0) as [->|Hne]; simpl.
    + now constructor.
    + constructor; [|now apply IH].
      rewrite setdefault_keys. intros [Heq|Hin]; [congruence|contradiction].
Qed.

Lemma setdefault_in (key : string) (f : outline G)
      (d : list (string * list (outline G))) (k : string) (arr : list (outline G)) :
  NoDup (map fst d) ->
  In (k, arr) (setdefault_append key f d) ->
  (k <> key /\ In (k, arr) d)
  \/ (k = key /\ exists arr0, In (key, arr0) d /\ arr = arr0 ++ [f])
  \/ (k = key /\ ~ In key (map fst d) /\ arr = [f]).
Proof.
  induction d as [|[k0 arr0] d IH]; intros Hnd Hin; simpl in Hin.
  - destruct Hin as [He|[]]. inversion He; subst. right. right. auto.
  - simpl in Hnd. inversion Hnd as [|y ys Hnotin Hnd']; subst.
    destruct (String.eqb_spec key k0) as [->|Hne].
    + destruct Hin as [He|Hin].
      * inversion He; subst. right. left. split; [reflexivity|].
        exists arr0. split; [now left|reflexivity].
      * left. split; [|now right].
        intros ->. apply Hnotin. apply in_map_iff. now exists (k0, arr).
    + destruct Hin as [He|Hin].
      * inversion He; subst. left. split; [congruence|now left].
      * destruct (IH Hnd' Hin) as [[H1 H2]|[[H1 [a [H2 H3]]]|[H1 [H2 H3]]]].
        -- left. split; [assumption|now right].
        -- right. left. split; [assumption|]. exists a. split; [now right|assumption].
        -- right. right. split; [assumption|]. split; [|assumption].
           simpl. intros [Heq|Hin']; [congruence|contradiction].
Qed.

Lemma by_group_grouped (feats : list (outline G)) : grouped (by_group feats) feats.
Proof.
  induction feats as [|f pre IH] using rev_ind.
  - split; [constructor|]. split; [intros k arr []|].
    intros k. split; [intros []|intros [f [[] _]]].
  - destruct IH as [Hnd [Hfil Hkeys]]. rewrite by_group_snoc.
    split; [now apply setdefault_nodup|]. split.
    + intros k arr Hin. rewrite filter_app. simpl.
      destruct (setdefault_in _ _ _ _ _ Hnd Hin)
        as [[H1 H2]|[[H1 [a [H2 H3]]]|[H1 [H2 H3]]]].
      * rewrite (Hfil _ _ H2).
        destruct (String.eqb_spec (group_key f) k) as [E|E]; [congruence|].
        now rewrite app_nil_r.
      * subst. rewrite String.eqb_refl. now rewrite (Hfil _ _ H2).
      * subst. rewrite String.eqb_refl.
        assert (Hnone : filter (fun g => String.eqb (group_key g) (group_key f)) pre = []).
        { destruct (filter _ pre) as [|g l] eqn:E; [reflexivity|].
          exfalso. apply H2. apply Hkeys. exists g.
          assert (Hg : In g (filter (fun g0 => String.eqb (group_key g0) (group_key f)) pre))
            by (rewrite E; now left).
          apply filter_In in Hg as [Hg1 Hg2]. apply String.eqb_eq in Hg2. auto. }
        now rewrite Hnone.
    + intros k. rewrite setdefault_keys, Hkeys. split.
      * intros [->|[g [Hg1 Hg2]]].
        -- exists f. split; [apply in_or_app; right; now left|reflexivity].
        -- exists g. split; [apply in_or_app; now left|assumption].
      * intros [g [Hg1 Hg2]]. apply in_app_or in Hg1 as [Hg1|[->|[]]].
        -- right. now exists g.
        -- now left.
Qed.

Lemma by_group_of (feats : list (outline G)) (S : outline G) :
  In S feats ->
  In (group_key S, filter (same_key S) feats) (by_group feats).
Proof.
  intros HS. destruct (by_group_grouped feats) as [_ [Hfil Hkeys]].
  assert (Hk : In (group_key S) (map fst (by_group feats)))
    by (apply Hkeys; now exists S).
  apply in_map_iff in Hk as [[k arr] [Hk Hin]]. simpl in Hk. subst k.
  now rewrite (Hfil _ _ Hin) in Hin.
Qed.

(** *** The sort *)

Lemma insert_by_area_perm (f : outline G) (l : list (outline G)) :
  Permutation (insert_by_area f l) (f :: l).
Proof.
  induction l as [|g l IH]; simpl; [reflexivity|].
  destruct (area_lt (geometry g) (geometry f)); [|reflexivity].
  rewrite IH. apply perm_swap.
Qed.

Lemma sorted_by_area_perm (arr : list (outline G)) :
  Permutation (sorted_by_area arr) arr.
Proof.
  induction arr as [|f arr IH]; simpl; [reflexivity|].
  rewrite insert_by_area_perm. now constructor.
Qed.

End CleanerFacts.

Section ContainmentFacts.

Context {G Ring : Type} {geo : Geometry G Ring}.

(** *** The later script *)

Lemma scan_group_acc (arr : list (outline G)) :
  forall (acc : list Z) (id : Z),
    In id (NewOutline.scan_group arr acc)
    <-> In id acc \/ In id (NewOutline.scan_group arr []).
Proof.
  induction arr as [|f later IH]; intros acc id; simpl; [tauto|].
  rewrite IH. rewrite (IH (if NewOutline.contained_later f later then _ else _)).
  destruct (NewOutline.contained_later f later).
  - rewrite !set_add_in. simpl. tauto.
  - simpl. tauto.
Qed.

(** An id the scan of a group records belongs to a feature of the group
    that a feature later in the group contains, bounding box and all. *)
Lemma scan_group_sound (arr : list (outline G)) (id : Z) :
  In id (NewOutline.scan_group arr []) ->
  exists pre S later,
    arr = pre ++ S :: later /\ fid S = id
    /\ NewOutline.contained_later S later = true.
Proof.
  induction arr as [|f later IH]; simpl; [intros []|].
  rewrite scan_group_acc. intros [H|H].
  - destruct (NewOutline.contained_later f later) eqn:E; [|contradiction].
    apply set_add_in in H as [->|[]]. now exists [], f, later.
  - destruct (IH H) as [pre [S [l [-> [Hid Hc]]]]].
    now exists (f :: pre), S, l.
Qed.

Lemma scan_group_complete (pre later : list (outline G)) (S : outline G) :
  NewOutline.contained_later S later = true ->
  In (fid S) (NewOutline.scan_group (pre ++ S :: later) []).
Proof.
  intros Hc. induction pre as [|f pre IH]; simpl.
  - rewrite Hc. apply scan_group_acc. left. apply set_add_in. now left.
  - apply scan_group_acc. now right.
Qed.

Lemma remove_ids_groups (groups : list (string * list (outline G))) :
  forall (acc : list Z) (id : Z),
    In id (fold_left (fun acc group =>
                        NewOutline.scan_group (sorted_by_area (snd group)) acc)
                     groups acc)
    <-> In id acc
        \/ exists group, In group groups
                         /\ In id (NewOutline.scan_group
                                     (sorted_by_area (snd group)) []).
Proof.
  induction groups as [|g groups IH]; intros acc id; simpl.
  - split; [auto|]. intros [H|[g [[] _]]]. assumption.
  - rewrite IH, scan_group_acc. split.
    + intros [[H|H]|[g' [H1 H2]]]; [now left| |].
      * right. exists g. auto.
      * right. exists g'. auto.
    + intros [H|[g' [[->|H1] H2]]]; [now left; left| |].
      * left. now right.
      * right. now exists g'.
Qed.

(** Whether a feature's id is recorded is decided within its own group. *)
Lemma remove_ids_own_group (feats : list (outline G)) (S : outline G) :
  NoDup (map fid feats) -> In S feats ->
  In (fid S) (NewOutline.remove_ids feats)
  <-> In (fid S) (NewOutline.scan_group
                   (sorted_by_area (filter (same_key S) feats)) []).
Proof.
  intros Hnd HS. unfold NewOutline.remove_ids. rewrite remove_ids_groups. split.
  - intros [[]|[[k arr] [Hg Hid]]]. simpl in Hid.
    destruct (by_group_grouped feats) as [_ [Hfil _]].
    pose proof (Hfil _ _ Hg) as Harr.
    destruct (scan_group_sound _ _ Hid) as [pre [S' [later [Hs [Hfid _]]]]].
    assert (HS' : In S' arr).
    { apply (Permutation_in _ (sorted_by_area_perm arr)).
      rewrite Hs. apply in_or_app. right. now left. }
    rewrite Harr in HS'. apply filter_In in HS' as [HS'1 HS'2].
    apply String.eqb_eq in HS'2.
    assert (S' = S) by (eapply NoDup_map_inj; eassumption).
    subst S'. subst k. rewrite Harr in Hid. exact Hid.
  - intros H. right. exists (group_key S, filter (same_key S) feats).
    split; [now apply by_group_of|exact H].
Qed.

Lemma filter_same_key_idem (feats : list (outline G)) (S : outline G) :
  filter (same_key S) (filter (same_key S) feats) = filter (same_key S) feats.
Proof.
  induction feats as [|f feats IH]; simpl; [reflexivity|].
  destruct (same_key S f) eqn:E; simpl; [|assumption].
  now rewrite E, IH.
Qed.

Lemma new_removed_contained (feats : list (outline G)) (S : outline G) :
  NoDup (map fid feats) -> In S feats ->
  In (fid S) (NewOutline.remove_ids feats) ->
  exists B,
    In B feats /\ fid B <> fid S /\ group_key B = group_key S
    /\ bbox_contains (geometry B) (geometry S) = true
    /\ contains (geometry B) (geometry S) = true.
Proof.
  intros Hnd HS Hrm. apply (remove_ids_own_group feats S Hnd HS) in Hrm.
  destruct (scan_group_sound _ _ Hrm) as [pre [S' [later [Hs [Hfid Hc]]]]].
  pose proof (sorted_by_area_perm (filter (same_key S) feats)) as Hperm.
  assert (Hnd' : NoDup (map fid (pre ++ S' :: later))).
  { rewrite <- Hs. eapply Permutation_NoDup.
    - apply Permutation_map, Permutation_sym, Hperm.
    - now apply nodup_map_filter. }
  assert (Hin : forall x, In x (pre ++ S' :: later) ->
                          In x feats /\ group_key x = group_key S).
  { intros x Hx. rewrite <- Hs in Hx. apply (Permutation_in _ Hperm) in Hx.
    apply filter_In in Hx as [H1 H2]. apply String.eqb_eq in H2. auto. }
  assert (S' = S).
  { destruct (Hin S') as [H1 _]; [apply in_or_app; right; now left|].
    apply (NoDup_map_inj fid feats); assumption. }
  subst S'. unfold NewOutline.contained_later in Hc.
  apply existsb_exists in Hc as [B [HB Hc]]. apply andb_true_iff in Hc as [Hbb Hct].
  destruct (Hin B) as [HB1 HB2]; [apply in_or_app; right; now right|].
  exists B. repeat split; try assumption.
  rewrite map_app in Hnd'. simpl in Hnd'.
  apply NoDup_remove_2 in Hnd'. intros Heq. apply Hnd'.
  apply in_or_app. right. rewrite <- Heq. now apply in_map.
Qed.

(** *** The earlier script *)

Lemma enumerate_from_in {A : Type} (l : list A) :
  forall (i j : nat) (x : A),
    In (j, x) (OldOutline.enumerate_from i l)
    <-> exists k, j = (i + k)%nat /\ nth_error l k = Some x.
Proof.
  induction l as [|y l IH]; intros i j x; simpl.
  - split; [intros []|]. intros [k [_ H]]. destruct k; discriminate.
  - rewrite IH. split.
    + intros [He|[k [Hj Hk]]].
      * inversion He; subst. exists 0%nat. split; [lia|reflexivity].
      * exists (S k). split; [lia|assumption].
    + intros [[|k] [Hj Hk]].
      * left. simpl in Hk. inversion Hk. f_equal. lia.
      * right. exists k. split; [lia|assumption].
Qed.

Lemma old_remove_ids_fold (features : list (outline G))
      (visited : list (nat * outline G)) :
  forall (acc : list Z) (id : Z),
    In id (fold_left (fun acc ifeat =>
                        if OldOutline.contained_elsewhere features (fst ifeat)
                                                          (snd ifeat)
                        then set_add (fid (snd ifeat)) acc else acc)
                     visited acc)
    <-> In id acc
        \/ exists ifeat, In ifeat visited /\ fid (snd ifeat) = id
                         /\ OldOutline.contained_elsewhere features (fst ifeat)
                                                           (snd ifeat) = true.
Proof.
  induction visited as [|v visited IH]; intros acc id; simpl.
  - split; [auto|]. intros [H|[v [[] _]]]. assumption.
  - rewrite IH. destruct (OldOutline.contained_elsewhere features (fst v) (snd v)) eqn:E.
    + rewrite set_add_in. split.
      * intros [[->|H]|[v' [H1 H2]]]; [right; exists v; auto|now left|].
        right. exists v'. tauto.
      * intros [H|[v' [[->|H1] [H2 H3]]]]; [left; now right|left; now left|].
        right. exists v'. auto.
    + split.
      * intros [H|[v' [H1 H2]]]; [now left|]. right. exists v'. tauto.
      * intros [H|[v' [[->|H1] [H2 H3]]]]; [now left|congruence|].
        right. exists v'. auto.
Qed.

Lemma old_removed_iff (feats : list (outline G)) (S : outline G) :
  NoDup (map fid feats) -> In S feats ->
  In (fid S) (OldOutline.remove_ids feats)
  <-> exists B,
      In B feats /\ fid B <> fid S /\ group_key B = group_key S
      /\ contains (geometry B) (geometry S) = true
      /\ area_lt (geometry S) (geometry B) = true.
Proof.
  intros Hnd HS. unfold OldOutline.remove_ids. rewrite old_remove_ids_fold. split.
  - intros [[]|[[i feat] [Hi [Hfid Hc]]]]. simpl in Hfid, Hc.
    apply enumerate_from_in in Hi as [k [-> Hk]]. simpl in Hc.
    assert (feat = S).
    { eapply NoDup_map_inj; try eassumption. eapply nth_error_In; eassumption. }
    subst feat. unfold OldOutline.contained_elsewhere in Hc.
    apply existsb_exists in Hc as [[j B] [Hj Hc]]. simpl in Hc.
    apply enumerate_from_in in Hj as [k' [-> Hk']]. simpl in Hc.
    rewrite !andb_true_iff, negb_true_iff in Hc.
    destruct Hc as [[Hne Hkey] [Hct Har]].
    apply Nat.eqb_neq in Hne. apply String.eqb_eq in Hkey.
    exists B. split; [eapply nth_error_In; eassumption|].
    split; [|auto].
    intros Heq. apply Hne.
    apply (proj1 (NoDup_nth_error (map fid feats)) Hnd).
    + rewrite length_map. apply nth_error_Some. congruence.
    + rewrite !nth_error_map, Hk, Hk'. simpl. congruence.
  - intros [B [HB [Hne [Hkey [Hct Har]]]]]. right.
    apply In_nth_error in HS as [i Hi]. apply In_nth_error in HB as [j Hj].
    exists (i, S). split; [|split; [reflexivity|]].
    + apply enumerate_from_in. now exists i.
    + simpl. unfold OldOutline.contained_elsewhere. apply existsb_exists.
      exists (j, B). split; [apply enumerate_from_in; now exists j|].
      simpl. rewrite Hct, Har, Hkey, String.eqb_refl.
      destruct (Nat.eqb_spec i j) as [->|_]; [|reflexivity].
      rewrite Hi in Hj. inversion Hj. congruence.
Qed.

End ContainmentFacts.

(** C4.  On a layer whose feature ids are pairwise different: a polygon
    [S] that the later script's cleaner takes out of the ring-reduced
    layer has a different polygon [B] in that layer with the same
    [group_key] whose bounding box contains that of [S] and which contains
    [S]; whether [S] is taken out is the same when all polygons of other
    group keys are dropped from the layer first; and the earlier script's
    cleaner takes [S] out exactly when a different polygon with the same
    [group_key] contains it and has the larger area. *)
Theorem containment_filter_same_group {G Ring : Type} {geo : Geometry G Ring}
        (layer : list (outline G)) (S : outline G) :
  NoDup (map fid layer) ->
  (In S (NewOutline.reduced layer) ->
   ~ In S (snd (NewOutline.clean_outline_layer_batch layer)) ->
   exists B,
     In B (NewOutline.reduced layer) /\ fid B <> fid S
     /\ group_key B = group_key S
     /\ bbox_contains (geometry B) (geometry S) = true
     /\ contains (geometry B) (geometry S) = true)
  /\ (In S (NewOutline.reduced layer) ->
      (In (fid S) (NewOutline.remove_ids (NewOutline.reduced layer))
       <-> In (fid S) (NewOutline.remove_ids
                         (filter (same_key S) (NewOutline.reduced layer)))))
  /\ (In S (OldOutline.reduced layer) ->
      (~ In S (snd (OldOutline.clean_outline_layer layer))
       <-> exists B,
           In B (OldOutline.reduced layer) /\ fid B <> fid S
           /\ group_key B = group_key S
           /\ contains (geometry B) (geometry S) = true
           /\ area_lt (geometry S) (geometry B) = true)).
Proof.
  intros Hnd.
  assert (HndN : NoDup (map fid (NewOutline.reduced layer)))
    by (unfold NewOutline.reduced; now rewrite changed_fids).
  assert (HndO : NoDup (map fid (OldOutline.reduced layer)))
    by (unfold OldOutline.reduced; now rewrite changed_fids).
  split; [|split].
  - intros HS Hgone. apply new_removed_contained; try assumption.
    unfold NewOutline.clean_outline_layer_batch in Hgone. simpl in Hgone.
    rewrite delete_features_in in Hgone.
    destruct (in_dec Z.eq_dec (fid S)
                     (NewOutline.remove_ids (NewOutline.reduced layer)))
      as [H|H]; [assumption|].
    exfalso. apply Hgone. now split.
  - intros HS.
    rewrite (remove_ids_own_group _ S HndN HS).
    rewrite (remove_ids_own_group (filter (same_key S) (NewOutline.reduced layer)) S).
    + now rewrite filter_same_key_idem.
    + now apply nodup_map_filter.
    + apply filter_In. split; [assumption|]. unfold same_key. apply String.eqb_refl.
  - intros HS. rewrite <- (old_removed_iff _ S HndO HS).
    unfold OldOutline.clean_outline_layer. simpl.
    rewrite delete_features_in. split.
    + intros Hgone.
      destruct (in_dec Z.eq_dec (fid S)
                       (OldOutline.remove_ids (OldOutline.reduced layer)))
        as [H|H]; [assumption|].
      exfalso. apply Hgone. now split.
    + intros H [_ Hn]. contradiction.
Qed.

Lemma example_layer_ids : NoDup (map fid example_layer).
Proof.
  vm_compute. repeat constructor; simpl; intuition discriminate.
Defined.

Lemma containment_filter_same_group_witness :
  exists B,
    In B (NewOutline.reduced example_layer)
    /\ fid B <> fid (mkoutline 2 "7" (1, 1, 9, 9)%Z)
    /\ group_key B = group_key (mkoutline 2 "7" (1, 1, 9, 9)%Z)
    /\ bbox_contains (geometry B) (geometry (mkoutline 2 "7" (1, 1, 9, 9)%Z)) = true
    /\ contains (geometry B) (geometry (mkoutline 2 "7" (1, 1, 9, 9)%Z)) = true.
Proof.
  apply (proj1 (containment_filter_same_group
                  example_layer (mkoutline 2 "7" (1, 1, 9, 9)%Z) example_layer_ids)).
  - vm_compute. right. left. reflexivity.
  - vm_compute. intros [H|[H|[]]]; discriminate H.
Defined.

(** Of three nested rectangles of one group the outermost stays, and the
    rectangle of another group inside them stays too, in both scripts. *)
Example nested_rectangles :
  map fid (snd (NewOutline.clean_outline_layer_batch example_layer)) = [1; 3]%Z
  /\ map fid (snd (OldOutline.clean_outline_layer example_layer)) = [1; 3]%Z.
Proof. split; reflexivity. Qed.

(** ** Tile estimation *)

Section EstimatorFacts.

Context {F : Type} {arith : Arith F}.

Lemma fold_sum_from (f : Z -> Z) (n : nat) :
  forall (lo acc : Z),
    fold_left (fun total z => (total + f z)%Z) (range_from lo n) acc
    = (acc + sum_from lo n f)%Z.
Proof.
  induction n as [|n IH]; intros lo acc; simpl.
  - lia.
  - rewrite IH. lia.
Qed.

Lemma compute_total_tiles_wgs84_sum (xmin xmax ymin ymax : F)
      (zoom_min zoom_max : Z) :
  compute_total_tiles_wgs84 xmin xmax ymin ymax zoom_min zoom_max
  = EstimateTileCount xmin xmax ymin ymax zoom_min zoom_max.
Proof.
  unfold compute_total_tiles_wgs84, EstimateTileCount, range.
  replace (zoom_max + 1 - zoom_min)%Z with (zoom_max - zoom_min + 1)%Z by lia.
  exact (eq_trans (fold_sum_from (level_tiles xmin xmax ymin ymax) _ _ 0%Z)
                  (Z.add_0_l _)).
Qed.

Lemma compute_total_tiles_sum (xmin xmax ymin ymax : F) (zoom_min zoom_max : Z) :
  compute_total_tiles xmin xmax ymin ymax zoom_min zoom_max
  = EstimateTileCount xmin xmax ymin ymax zoom_min zoom_max.
Proof.
  unfold compute_total_tiles, EstimateTileCount, range.
  replace (zoom_max + 1 - zoom_min)%Z with (zoom_max - zoom_min + 1)%Z by lia.
  exact (eq_trans (fold_sum_from (level_tiles xmin xmax ymin ymax) _ _ 0%Z)
                  (Z.add_0_l _)).
Qed.

(** C7.  In whatever arithmetic the scripts run, both estimators return
    the sum, over the integers [z] from [zoom_min] to [zoom_max], of
    (colMax - colMin + 1) * (rowMax - rowMin + 1), the columns being
    [floor((lon + 180) / 360 * 2^z)] at [xmin] and [xmax] and the rows
    [floor((1 - ln(tan(lat) + sec(lat)) / pi) / 2 * 2^z)] at [ymax] for the
    minimum and at [ymin] for the maximum. *)
Theorem compute_total_tiles_is_estimate (xmin xmax ymin ymax : F)
        (zoom_min zoom_max : Z) :
  compute_total_tiles_wgs84 xmin xmax ymin ymax zoom_min zoom_max
  = EstimateTileCount xmin xmax ymin ymax zoom_min zoom_max
  /\ compute_total_tiles xmin xmax ymin ymax zoom_min zoom_max
     = EstimateTileCount xmin xmax ymin ymax zoom_min zoom_max.
Proof.
  split; [apply compute_total_tiles_wgs84_sum|apply compute_total_tiles_sum].
Qed.

End EstimatorFacts.

(** ** The formula of the estimate in exact arithmetic *)

Section RealEstimate.

Local Open Scope R_scope.

(** On the open interval between the poles, [tan x + sec x] is the
    tangent of [x / 2 + PI / 4]. *)
Lemma mercator_half_angle (x : R) :
  - PI / 2 < x -> x < PI / 2 -> tan x + 1 / cos x = tan (x / 2 + PI / 4).
Proof.
  intros Hlo Hhi.
  set (u := x / 2 + PI / 4).
  assert (Hu : 0 < u < PI / 2) by (unfold u; lra).
  assert (Hs : 0 < sin u) by (apply sin_gt_0; lra).
  assert (Hc : 0 < cos u) by (apply cos_gt_0; lra).
  assert (Hsin : sin x = sin u * sin u - cos u * cos u).
  { rewrite (sin_cos x). replace (PI / 2 + x) with (2 * u) by (unfold u; lra).
    rewrite cos_2a. lra. }
  assert (Hcos : cos x = 2 * sin u * cos u).
  { rewrite (cos_sin x). replace (PI / 2 + x) with (2 * u) by (unfold u; lra).
    apply sin_2a. }
  pose proof (sin2_cos2 u) as Hone. unfold Rsqr in Hone.
  unfold tan. rewrite Hsin, Hcos.
  field_simplify_eq; [nra|repeat split; nra].
Qed.

Lemma mercator_positive (x : R) :
  - PI / 2 < x -> x < PI / 2 -> 0 < tan x + 1 / cos x.
Proof.
  intros Hlo Hhi. rewrite mercator_half_angle by assumption.
  apply tan_gt_0; lra.
Qed.

Lemma mercator_increasing (x y : R) :
  - PI / 2 < x -> x <= y -> y < PI / 2 ->
  tan x + 1 / cos x <= tan y + 1 / cos y.
Proof.
  intros Hlo Hxy Hhi. rewrite !mercator_half_angle by lra.
  destruct Hxy as [Hlt | ->]; [|lra].
  left. apply tan_increasing; lra.
Qed.

Lemma radians_bounds (lat : R) :
  -90 < lat -> lat < 90 -> - PI / 2 < lat * (PI / 180) < PI / 2.
Proof. intros H1 H2. pose proof PI_RGT_0. split; nra. Qed.

Lemma pow2_positive (z : Z) : 0 < powerRZ 2 z.
Proof. apply powerRZ_lt. lra. Qed.

(** Rows grow southwards. *)
Lemma tile_row_antitone (lat1 lat2 : R) (z : Z) :
  -90 < lat1 -> lat1 <= lat2 -> lat2 < 90 ->
  (tile_row lat2 z <= tile_row lat1 z)%Z.
Proof.
  intros H1 H12 H2. unfold tile_row, sec. simpl.
  pose proof PI_RGT_0 as Hpi. pose proof (pow2_positive z) as Hz.
  destruct (radians_bounds lat1) as [Ha1 Ha2]; [lra|lra|].
  destruct (radians_bounds lat2) as [Hb1 Hb2]; [lra|lra|].
  set (a := lat1 * (PI / 180)) in *. set (b := lat2 * (PI / 180)) in *.
  assert (Hab : a <= b) by (unfold a, b; nra).
  pose proof (mercator_positive a Ha1 Ha2) as Hpos.
  pose proof (mercator_increasing a b Ha1 Hab Hb2) as Hinc.
  assert (Hln : ln (tan a + 1 / cos a) <= ln (tan b + 1 / cos b)).
  { destruct Hinc as [Hlt|Heq]; [left; now apply ln_increasing|rewrite Heq; lra]. }
  apply Zfloor_le.
  apply Rmult_le_compat_r; [lra|].
  apply Rmult_le_compat_r; [lra|].
  apply Rplus_le_compat_l, Ropp_le_contravar.
  apply Rmult_le_compat_r; [|assumption].
  left. now apply Rinv_0_lt_compat.
Qed.

Lemma tile_column_monotone (lon1 lon2 : R) (z : Z) :
  lon1 <= lon2 -> (tile_column lon1 z <= tile_column lon2 z)%Z.
Proof.
  intros H. unfold tile_column. simpl. pose proof (pow2_positive z) as Hz.
  apply Zfloor_le. apply Rmult_le_compat_r; [lra|]. lra.
Qed.

End RealEstimate.

Lemma sum_from_le (f g : Z -> Z) (n : nat) :
  forall lo, (forall z, f z <= g z)%Z -> (sum_from lo n f <= sum_from lo n g)%Z.
Proof.
  induction n as [|n IH]; intros lo H; simpl; [lia|].
  specialize (IH (lo + 1)%Z H). specialize (H lo). lia.
Qed.

Lemma sum_from_app (f : Z -> Z) (n m : nat) :
  forall lo,
    sum_from lo (n + m) f
    = (sum_from lo n f + sum_from (lo + Z.of_nat n) m f)%Z.
Proof.
  induction n as [|n IH]; intros lo.
  - simpl. now rewrite Z.add_0_r.
  - cbn [Nat.add sum_from]. rewrite IH.
    replace (lo + 1 + Z.of_nat n)%Z with (lo + Z.of_nat (S n))%Z by lia. lia.
Qed.

Lemma sum_from_nonneg (f : Z -> Z) (n : nat) :
  forall lo, (forall z, 0 <= f z)%Z -> (0 <= sum_from lo n f)%Z.
Proof.
  induction n as [|n IH]; intros lo H; simpl; [lia|].
  specialize (IH (lo + 1)%Z H). specialize (H lo). lia.
Qed.

(** A level of a well-ordered box between the poles has a tile. *)
Lemma level_tiles_positive (xmin xmax ymin ymax : R) (z : Z) :
  (xmin <= xmax)%R -> (-90 < ymin)%R -> (ymin <= ymax)%R -> (ymax < 90)%R ->
  (1 <= level_tiles xmin xmax ymin ymax z)%Z.
Proof.
  intros Hx Hlo Hy Hhi. unfold level_tiles.
  pose proof (tile_column_monotone xmin xmax z Hx).
  pose proof (tile_row_antitone ymin ymax z Hlo Hy Hhi).
  nia.
Qed.

Lemma level_tiles_widen (xmin xmax ymin ymax xmin' xmax' ymin' ymax' : R) (z : Z) :
  (xmin <= xmax)%R -> (ymin <= ymax)%R ->
  (xmin' <= xmin)%R -> (xmax <= xmax')%R ->
  (-90 < ymin')%R -> (ymin' <= ymin)%R -> (ymax <= ymax')%R -> (ymax' < 90)%R ->
  (level_tiles xmin xmax ymin ymax z <= level_tiles xmin' xmax' ymin' ymax' z)%Z.
Proof.
  intros Hx Hy Hx1 Hx2 Hlo Hy1 Hy2 Hhi. unfold level_tiles.
  pose proof (tile_column_monotone xmin xmax z Hx).
  pose proof (tile_column_monotone xmin' xmin z Hx1).
  pose proof (tile_column_monotone xmax xmax' z Hx2).
  assert (tile_row ymax z <= tile_row ymin z)%Z
    by (apply tile_row_antitone; lra).
  assert (tile_row ymin z <= tile_row ymin' z)%Z
    by (apply tile_row_antitone; lra).
  assert (tile_row ymax' z <= tile_row ymax z)%Z
    by (apply tile_row_antitone; lra).
  nia.
Qed.

Lemma estimate_grows_with_zoom (xmin xmax ymin ymax : R)
      (zoom_min zoom_max zoom_max' : Z) :
  (xmin <= xmax)%R -> (-90 < ymin)%R -> (ymin <= ymax)%R -> (ymax < 90)%R ->
  (zoom_max <= zoom_max')%Z ->
  (EstimateTileCount xmin xmax ymin ymax zoom_min zoom_max
   <= EstimateTileCount xmin xmax ymin ymax zoom_min zoom_max')%Z.
Proof.
  intros Hx Hlo Hy Hhi Hz. unfold EstimateTileCount.
  set (n := Z.to_nat (zoom_max - zoom_min + 1)).
  set (n' := Z.to_nat (zoom_max' - zoom_min + 1)).
  assert (Hn : (n <= n')%nat) by (unfold n, n'; lia).
  replace n' with (n + (n' - n))%nat by lia.
  rewrite sum_from_app.
  assert (0 <= sum_from (zoom_min + Z.of_nat n) (n' - n)
                        (level_tiles xmin xmax ymin ymax))%Z.
  { apply sum_from_nonneg. intros z.
    pose proof (level_tiles_positive xmin xmax ymin ymax z Hx Hlo Hy Hhi). lia. }
  lia.
Qed.

(** The formula read in exact arithmetic: for either estimator and a box
    with [xmin <= xmax] and [-90 < ymin <= ymax < 90], the sum does not
    decrease when [zoom_max] grows, and it does not decrease when the box
    widens to one that still lies between the poles.  This is a fact about
    the formula only: the scripts evaluate it in binary64 with the C
    library's [tan], [cos] and [log], where two latitudes one rounding
    step apart can come out in the opposite order of rows. *)
Theorem estimate_monotone (est : R -> R -> R -> R -> Z -> Z -> Z)
        (xmin xmax ymin ymax : R) (zoom_min zoom_max : Z) :
  est = compute_total_tiles_wgs84 \/ est = compute_total_tiles ->
  (xmin <= xmax)%R -> (-90 < ymin)%R -> (ymin <= ymax)%R -> (ymax < 90)%R ->
  (forall zoom_max' : Z,
      (zoom_max <= zoom_max')%Z ->
      (est xmin xmax ymin ymax zoom_min zoom_max
       <= est xmin xmax ymin ymax zoom_min zoom_max')%Z)
  /\ (forall xmin' xmax' ymin' ymax' : R,
         (xmin' <= xmin)%R -> (xmax <= xmax')%R ->
         (-90 < ymin')%R -> (ymin' <= ymin)%R ->
         (ymax <= ymax')%R -> (ymax' < 90)%R ->
         (est xmin xmax ymin ymax zoom_min zoom_max
          <= est xmin' xmax' ymin' ymax' zoom_min zoom_max)%Z).
Proof.
  intros Hest Hx Hlo Hy Hhi.
  assert (Hsum : forall a b c d lo hi,
             est a b c d lo hi = EstimateTileCount a b c d lo hi).
  { intros a b c d lo hi. destruct Hest as [-> | ->].
    - apply compute_total_tiles_wgs84_sum.
    - apply compute_total_tiles_sum. }
  split.
  - intros zoom_max' Hz. rewrite !Hsum. now apply estimate_grows_with_zoom.
  - intros xmin' xmax' ymin' ymax' Hx1 Hx2 Hlo' Hy1 Hy2 Hhi'.
    rewrite !Hsum. unfold EstimateTileCount. apply sum_from_le. intros z.
    now apply level_tiles_widen.
Qed.

Lemma estimate_monotone_witness :
  (compute_total_tiles_wgs84 0%R 1%R 0%R 1%R 10 10
   <= compute_total_tiles_wgs84 0%R 1%R 0%R 1%R 10 11)%Z.
Proof.
  apply (proj1 (estimate_monotone compute_total_tiles_wgs84 0%R 1%R 0%R 1%R 10 10
                  (or_introl eq_refl)
                  ltac:(lra) ltac:(lra) ltac:(lra) ltac:(lra)) 11%Z).
  lia.
Defined.

(** ** More on the ledger operations *)

Lemma entry_at_rendered (entries : list (string * string)) (lk : bool) (i : nat) :
  Forall (fun e => plain_name (fst e) = true /\ is_status (snd e)) entries ->
  entry_at (mkfs (Some (Py.writelines (render entries))) lk) i = nth_error entries i.
Proof.
  intros Hall. unfold entry_at, ledger_lines. simpl.
  rewrite (readlines_render _ Hall). unfold render. rewrite nth_error_map.
  destruct (nth_error entries i) as [[fn s]|] eqn:E; [|reflexivity].
  simpl. apply nth_error_In in E. rewrite Forall_forall in Hall.
  destruct (Hall _ E) as [Hp Hs]. now apply parse_entry_line.
Qed.

(** X1.  In a folder without a ledger, [build_job_list] writes one entry
    per file found, in the order found, each with the file's base name and
    the status [PENDING], and leaves the lock as it is; a second call,
    whatever files it is given, changes nothing. *)
Theorem build_job_list_fresh (main_folder : string) (files files' : list string)
        (lk : bool) :
  Forall (fun f => plain_name (Py.os_path_basename f) = true) files ->
  let st' := snd (build_job_list main_folder files (mkfs None lk)) in
  lock st' = lk
  /\ (forall i,
         entry_at st' i
         = option_map (fun f => (Py.os_path_basename f, JOB_STATUS_PENDING))
                      (nth_error files i))
  /\ build_job_list main_folder files' st' = (Ok tt, st').
Proof.
  intros Hplain st'. subst st'. unfold build_job_list. simpl.
  split; [reflexivity|]. split; [|reflexivity].
  intros i.
  replace (map (fun file => entry_line (Py.os_path_basename file) JOB_STATUS_PENDING)
               files)
    with (render (map (fun f => (Py.os_path_basename f, JOB_STATUS_PENDING)) files))
    by (unfold render; now rewrite map_map).
  rewrite entry_at_rendered.
  - now rewrite nth_error_map.
  - rewrite Forall_map. eapply Forall_impl; [|exact Hplain].
    intros f Hf. simpl. split; [assumption|now left].
Qed.

Lemma build_job_list_fresh_witness :
  entry_at (snd (build_job_list "/jobs" example_files (mkfs None false))) 0
  = option_map (fun f => (Py.os_path_basename f, JOB_STATUS_PENDING))
               (nth_error example_files 0).
Proof.
  apply (fun H => proj1 (proj2 (build_job_list_fresh "/jobs" example_files []
                                                     false H))).
  constructor; [reflexivity|constructor].
Defined.

Lemma all_done_loop_true (lines : list string) :
  all_done_loop lines = Ok true <-> Forall is_done_line lines.
Proof.
  induction lines as [|line rest IH]; simpl.
  - split; [constructor|reflexivity].
  - destruct (parse_line line) as [[fn s]|] eqn:P.
    + destruct (String.eqb_spec s JOB_STATUS_DONE) as [->|Hne]; simpl.
      * rewrite IH. split.
        -- intros H. constructor; [now exists fn|assumption].
        -- intros H. now inversion H.
      * split; [discriminate|]. intros H. inversion H as [|x xs [f Hf] _]; subst.
        unfold is_done_line in Hf. rewrite P in Hf. congruence.
    + split; [discriminate|]. intros H. inversion H as [|x xs [f Hf] _]; subst.
      rewrite P in Hf. discriminate.
Qed.

(** X2.  [check_all_done] never changes the folder; it answers [True]
    exactly when there is no ledger or every line of the ledger is an entry
    with the status [DONE]; and it raises only when a line is not of the
    form [name,status]. *)
Theorem check_all_done_answer (main_folder : string) (st : fs) :
  snd (check_all_done main_folder st) = st
  /\ (fst (check_all_done main_folder st) = Ok true
      <-> job_list st = None \/ Forall is_done_line (ledger_lines st))
  /\ (forall e, fst (check_all_done main_folder st) = Raised e ->
                e = ValueError
                /\ Exists (fun line => parse_line line = None) (ledger_lines st)).
Proof.
  unfold check_all_done, ledger_lines. destruct (job_list st) as [text|]; simpl.
  - split; [reflexivity|]. split.
    + rewrite all_done_loop_true. split; [auto|]. intros [H|H]; [discriminate|assumption].
    + intros e. induction (Py.readlines text) as [|line rest IH]; simpl; [discriminate|].
      destruct (parse_line line) as [[fn s]|] eqn:P.
      * destruct (negb (String.eqb s JOB_STATUS_DONE)); [discriminate|].
        intros H. destruct (IH H) as [He Hex]. split; [assumption|now right].
      * intros H. inversion H. split; [reflexivity|now left].
  - split; [reflexivity|]. split; [split; auto|discriminate].
Qed.

Lemma check_all_done_answer_witness :
  Exists (fun line => parse_line line = None) (ledger_lines broken_folder).
Proof.
  apply (proj2 (proj2 (check_all_done_answer "/jobs" broken_folder)) ValueError).
  reflexivity.
Defined.


Lemma claim_loop_malformed (lines : list string) :
  Exists (fun line => parse_line line = None) lines ->
  forall c, claim_loop lines [] c = Raised ValueError.
Proof.
  induction 1 as [line rest Hp|line rest _ IH]; intros c; rewrite claim_loop_cons.
  - now rewrite Hp.
  - destruct (parse_line line) as [[fn s]|]; [|reflexivity].
    destruct (String.eqb s JOB_STATUS_PENDING), c; now rewrite IH.
Qed.

Lemma mark_loop_malformed (filename : string) (lines : list string) :
  Exists (fun line => parse_line line = None) lines ->
  mark_loop filename lines [] = Raised ValueError.
Proof.
  induction 1 as [line rest Hp|line rest _ IH]; simpl.
  - now rewrite Hp.
  - destruct (parse_line line) as [[fn s]|]; [|reflexivity].
    destruct (String.eqb fn (Py.os_path_basename filename));
      now rewrite mark_loop_acc, IH.
Qed.

(** X3.  A ledger line that is not of the form [name,status] makes
    [claim_next_job] and [mark_job_done] raise [ValueError] with the ledger
    untouched and the lock file left behind; and with the lock file there,
    both raise the lock timeout and leave the folder as it is. *)
Theorem malformed_line_leaves_lock (main_folder filename : string) (st : fs)
        (text : string) :
  job_list st = Some text -> lock st = false ->
  Exists (fun line => parse_line line = None) (Py.readlines text) ->
  claim_next_job main_folder st = (Raised ValueError, mkfs (Some text) true)
  /\ mark_job_done main_folder filename st = (Raised ValueError, mkfs (Some text) true)
  /\ claim_next_job main_folder (mkfs (Some text) true)
     = (Raised LockTimeout, mkfs (Some text) true)
  /\ mark_job_done main_folder filename (mkfs (Some text) true)
     = (Raised LockTimeout, mkfs (Some text) true).
Proof.
  intros Hj Hl Hbad. destruct st as [jl lk]. simpl in Hj, Hl. subst jl lk.
  unfold claim_next_job, mark_job_done, bind, atomic_lock, read_job_list, raise,
    lift, write_job_list, atomic_unlock, ret. simpl.
  rewrite (claim_loop_malformed _ Hbad), (mark_loop_malformed filename _ Hbad).
  repeat split.
Qed.

Lemma malformed_line_leaves_lock_witness :
  claim_next_job "/jobs" broken_folder
  = (Raised ValueError,
     mkfs (Some (Py.writelines [entry_line "a.geojson" JOB_STATUS_DONE;
                                "b.geojson PENDING"]))
          true).
Proof.
  apply (fun H => proj1 (malformed_line_leaves_lock
                           "/jobs" "/jobs/b.geojson" broken_folder
                           (Py.writelines [entry_line "a.geojson" JOB_STATUS_DONE;
                                           "b.geojson PENDING"])
                           eq_refl eq_refl H)).
  vm_compute. apply Exists_cons_tl. apply Exists_cons_hd. reflexivity.
Defined.

(** X4.  A call of [mark_job_done] for a file whose base name is on no
    line of the ledger returns normally and leaves the folder exactly as it
    was. *)
Theorem mark_job_done_unknown (main_folder filename : string) (st : fs)
        (text : string) :
  job_list st = Some text -> lock st = false ->
  Forall parses (Py.readlines text) ->
  ~ In (Py.os_path_basename filename) (entry_names (Py.readlines text)) ->
  mark_job_done main_folder filename st = (Ok tt, st).
Proof.
  intros Hj Hl Hparse Hnot. destruct st as [jl lk]. simpl in Hj, Hl. subst jl lk.
  unfold mark_job_done, bind, atomic_lock, read_job_list, raise, lift,
    write_job_list, atomic_unlock. simpl.
  rewrite (mark_loop_ok _ _ Hparse). simpl.
  now rewrite (mark_line_other _ _ Hnot), writelines_readlines.
Qed.

Lemma mark_job_done_unknown_witness :
  mark_job_done "/jobs" "/jobs/zzz.geojson" example_folder = (Ok tt, example_folder).
Proof.
  apply (mark_job_done_unknown "/jobs" "/jobs/zzz.geojson" example_folder
                               example_ledger eq_refl eq_refl).
  - repeat constructor.
    + now exists "a.geojson", JOB_STATUS_DONE.
    + now exists "b.geojson", JOB_STATUS_PENDING.
  - vm_compute. intros [H|[H|[]]]; discriminate H.
Defined.

(** ** More on the workers and the main loop *)




Lemma set_done_twice (name : string) (entries : list (string * string)) :
  set_done name (set_done name entries) = set_done name entries.
Proof.
  unfold set_done. rewrite map_map. apply map_ext. intros [f s]. simpl.
  destruct (String.eqb f name) eqn:E; simpl; now rewrite E.
Qed.

(** X6.  On a well-formed ledger with the lock free, [mark_job_done] does
    not look at the status it replaces: the entry named after the file is
    [DONE] afterwards whatever it was before, also [PENDING], every other
    entry is as before, and a second call changes nothing. *)
Theorem mark_job_done_any_status (main_folder filename : string)
        (entries : list (string * string)) (i : nat) (fn status : string) :
  well_formed entries ->
  nth_error entries i = Some (fn, status) ->
  let st := mkfs (Some (Py.writelines (render entries))) false in
  let st' := snd (mark_job_done main_folder filename st) in
  fst (mark_job_done main_folder filename st) = Ok tt
  /\ entry_at st' i
     = Some (fn, if String.eqb fn (Py.os_path_basename filename)
                 then JOB_STATUS_DONE else status)
  /\ mark_job_done main_folder filename st' = (Ok tt, st').
Proof.
  intros Hwf Hi st st'. subst st st'.
  rewrite (mark_job_done_render main_folder filename entries Hwf). simpl.
  pose proof (well_formed_set_done (Py.os_path_basename filename) entries Hwf) as Hwf'.
  split; [reflexivity|]. split.
  - rewrite (entry_at_render _ false i Hwf').
    apply set_done_nth. exact Hi.
  - rewrite (mark_job_done_render main_folder filename _ Hwf').
    now rewrite set_done_twice.
Qed.

Lemma mark_job_done_any_status_witness :
  entry_at (snd (mark_job_done "/jobs" "/jobs/a.geojson"
                   (mkfs (Some (Py.writelines
                                  (render [("a.geojson", JOB_STATUS_PENDING)])))
                         false))) 0
  = Some ("a.geojson", JOB_STATUS_DONE).
Proof.
  apply (fun H => proj1 (proj2 (mark_job_done_any_status
                                  "/jobs" "/jobs/a.geojson"
                                  [("a.geojson", JOB_STATUS_PENDING)] 0
                                  "a.geojson" JOB_STATUS_PENDING H eq_refl))).
  split.
  - constructor; [|constructor]. split; [reflexivity|now left].
  - vm_compute. constructor; [intros []|constructor].
Defined.

(** *** The loop to its end *)











(** X8.  With the lock free, on a ledger without a [PENDING] line on
    which [check_all_done] answers [False] (some job is stuck
    [IN_PROGRESS]), the loop never ends: however many rounds it is given,
    every round only reports that it waits, and the folder stays as it
    is. *)
Theorem run_loop_waits_forever (env : collaborators) (main_folder : string)
        (st : fs) (text : string) (fuel : nat) :
  job_list st = Some text -> lock st = false ->
  Forall not_pending (Py.readlines text) ->
  check_all_done main_folder st = (Ok false, st) ->
  run_loop fuel env main_folder st = (Ok (repeat WaitingForJobs fuel), st).
Proof.
  intros Hj Hl Hnone Hcheck. induction fuel as [|fuel IH]; [reflexivity|].
  cbn [run_loop]. unfold bind at 1. rewrite Hcheck.
  unfold bind, run_iteration, bind.
  rewrite (claim_next_job_nothing main_folder st text Hj Hl Hnone).
  unfold ret at 1. rewrite IH. reflexivity.
Qed.

Lemma run_loop_waits_forever_witness :
  run_loop 5 nothing_loads "/jobs" stuck_folder
  = (Ok (repeat WaitingForJobs 5), stuck_folder).
Proof.
  apply (run_loop_waits_forever
           nothing_loads "/jobs" stuck_folder
           (Py.writelines [entry_line "a.geojson" JOB_STATUS_DONE;
                           entry_line "b.geojson" JOB_STATUS_IN_PROGRESS])
           5 eq_refl eq_refl).
  - vm_compute. constructor.
    + exists "a.geojson", "DONE". split; [reflexivity|discriminate].
    + constructor; [|constructor].
      exists "b.geojson", "IN_PROGRESS". split; [reflexivity|discriminate].
  - reflexivity.
Defined.

(** ** More on group keys *)

Lemma present_dec (v : pyval) : {present v} + {absent v}.
Proof.
  destruct (py_in v NONE_OR_ZERO) eqn:E.
  - right. now apply absent_iff.
  - left. now apply present_iff.
Qed.

(** The branches other than [MT], tests sorted out. *)
Lemma get_group_key_other_cases (feat : feature) :
  type_code feat <> "MT" ->
  New.get_group_key feat
  = let m := norm (safe_val feat "M") in
    let k := norm (safe_val feat "K") in
    let fallback := if py_in m NONE_OR_ZERO then "0" else str m in
    if (negb (str_in (type_code feat) M_TYPES) && String.eqb (type_code feat) "K")%bool
    then (if py_in k NONE_OR_ZERO then fallback else str k)
    else fallback.
Proof.
  intros Ht. unfold New.get_group_key. cbv zeta.
  apply String.eqb_neq in Ht. rewrite Ht.
  destruct (str_in (type_code feat) M_TYPES),
    (String.eqb (type_code feat) "K"),
    (py_in (norm (safe_val feat "M")) NONE_OR_ZERO),
    (py_in (norm (safe_val feat "K")) NONE_OR_ZERO); reflexivity.
Qed.

(** X9.  For a feature whose type code is not [MT], in both scripts, with
    [m] and [k] the normalized values of [M] and [K]: under the type code
    [K] a present [k] gives the string of [k]; in every other case (one of
    the five [M] type codes, any other or no type code, or [K] with [k]
    absent) the key is the string of [m] when [m] is present and ["0"]
    when it is absent. *)
Theorem get_group_key_other_types (gk : feature -> string) (feat : feature) :
  gk = New.get_group_key \/ gk = Old.get_group_key ->
  type_code feat <> "MT" ->
  let m := norm (safe_val feat "M") in
  let k := norm (safe_val feat "K") in
  (type_code feat = "K" -> present k -> gk feat = str k)
  /\ (type_code feat <> "K" \/ absent k ->
      (present m -> gk feat = str m) /\ (absent m -> gk feat = "0")).
Proof.
  intros Hgk Ht m k.
  assert (Hnew : gk feat = New.get_group_key feat)
    by (destruct Hgk as [-> | ->]; [reflexivity|apply old_key_is_new_key]).
  rewrite Hnew, (get_group_key_other_cases feat Ht). cbv zeta. fold m k.
  split.
  - intros HK Hk. apply present_iff in Hk. rewrite Hk, HK. reflexivity.
  - intros Hcase.
    assert (Hfb : (if (negb (str_in (type_code feat) M_TYPES)
                       && String.eqb (type_code feat) "K")%bool
                   then (if py_in k NONE_OR_ZERO
                         then (if py_in m NONE_OR_ZERO then "0" else str m)
                         else str k)
                   else (if py_in m NONE_OR_ZERO then "0" else str m))
                  = (if py_in m NONE_OR_ZERO then "0" else str m)).
    { destruct (negb (str_in (type_code feat) M_TYPES)
                && String.eqb (type_code feat) "K")%bool eqn:E; [|reflexivity].
      apply andb_true_iff in E as [_ E]. apply String.eqb_eq in E.
      destruct Hcase as [Hne|Hk]; [contradiction|].
      apply absent_iff in Hk. now rewrite Hk. }
    rewrite Hfb. split.
    + intros Hm. apply present_iff in Hm. now rewrite Hm.
    + intros Hm. apply absent_iff in Hm. now rewrite Hm.
Qed.

Lemma get_group_key_other_types_witness :
  New.get_group_key example_k = str (norm (safe_val example_k "K")).
Proof.
  apply (proj1 (get_group_key_other_types New.get_group_key example_k
                  (or_introl eq_refl) ltac:(discriminate))).
  - reflexivity.
  - split; discriminate.
Defined.

Lemma str_int_not_empty (z : Z) : str (PyInt z) <> "".
Proof.
  simpl. destruct (Z.to_int z) as [d|d]; simpl; [|discriminate].
  destruct d; simpl; discriminate.
Qed.

Lemma str_present_not_empty (x : pyval) :
  present (norm x) -> str (norm x) <> "".
Proof.
  intros [Hn _]. destruct (norm x) as [|z|s] eqn:E.
  - contradiction.
  - apply str_int_not_empty.
  - simpl. now destruct (norm_text x s E) as [H _].
Qed.

Lemma append_not_empty_r (a b : string) : b <> "" -> (a ++ b)%string <> "".
Proof. intros Hb. destruct a; simpl; [assumption|discriminate]. Qed.

(** X10.  Whatever the feature, also one without any of the fields, both
    scripts return a key that is not the empty text. *)
Theorem get_group_key_not_empty (feat : feature) :
  New.get_group_key feat <> "" /\ Old.get_group_key feat <> "".
Proof.
  rewrite old_key_is_new_key.
  assert (H : New.get_group_key feat <> ""); [|now split].
  assert (Hfb : forall x, (if py_in (norm x) NONE_OR_ZERO then "0" else str (norm x))
                          <> "").
  { intros x. destruct (py_in (norm x) NONE_OR_ZERO) eqn:E; [discriminate|].
    apply str_present_not_empty. now apply present_iff. }
  destruct (String.eqb_spec (type_code feat) "MT") as [Ht|Ht].
  - rewrite (get_group_key_MT_cases feat Ht). cbv zeta.
    destruct (py_in (norm (safe_val feat "M")) NONE_OR_ZERO) eqn:Em.
    + apply Hfb.
    + destruct (py_in (norm (safe_val feat "MN")) NONE_OR_ZERO) eqn:Emn.
      * apply str_present_not_empty. now apply present_iff.
      * destruct (py_eq _ _);
          [apply str_present_not_empty; now apply present_iff|].
        destruct (py_in (norm (safe_val feat "B")) NONE_OR_ZERO).
        -- apply str_present_not_empty. now apply present_iff.
        -- apply append_not_empty_r. discriminate.
  - rewrite (get_group_key_other_cases feat Ht). cbv zeta.
    destruct (negb _ && _)%bool; [|apply Hfb].
    destruct (py_in (norm (safe_val feat "K")) NONE_OR_ZERO) eqn:Ek; [apply Hfb|].
    apply str_present_not_empty. now apply present_iff.
Qed.

(** X11.  Normalizing a value a second time changes nothing: [norm]
    returns [None], an integer, or a text that [norm] leaves alone. *)
Theorem norm_idempotent (x : pyval) : norm (norm x) = norm x.
Proof.
  destruct x as [|z|s]; [reflexivity|reflexivity|].
  assert (Hn : norm (PyStr s)
               = if (String.eqb s "" || String.eqb s "None")%bool then PyNone
                 else if isdigit s
                      then match int_of_str s with
                           | Some n => PyInt n
                           | None => PyStr s
                           end
                      else PyStr s)
    by (unfold norm; simpl; now rewrite orb_false_r).
  destruct (String.eqb s "" || String.eqb s "None")%bool eqn:E;
    [now rewrite Hn|].
  destruct (isdigit s) eqn:D.
  - destruct (int_of_str s) as [n|] eqn:I; rewrite Hn; [reflexivity|exact Hn].
  - rewrite Hn. exact Hn.
Qed.

(** ** More on tile pruning *)

Lemma filter_keep_all {A : Type} (p : A -> bool) (l : list A) :
  (forall x, In x l -> p x = true) -> filter p l = l.
Proof.
  induction l as [|x l IH]; intros H; [reflexivity|].
  simpl. rewrite (H x (or_introl eq_refl)). f_equal. apply IH.
  intros y Hy. apply H. now right.
Qed.

Lemma filter_twice {A : Type} (p q : A -> bool) (l : list A) :
  filter p (filter q l) = filter (fun x => (q x && p x)%bool) l.
Proof.
  induction l as [|x l IH]; [reflexivity|].
  simpl. destruct (q x); simpl; [|assumption].
  destruct (p x); now rewrite IH.
Qed.

Lemma lookup_found (dir : directory) (q : string) (t : tile_file) :
  lookup q dir = Some t -> In (q, t) dir.
Proof.
  unfold lookup. destruct (find _ dir) as [[q' t']|] eqn:E; [|discriminate].
  intros H. inversion H; subst. apply find_some in E as [Hin Heq].
  simpl in Heq. apply String.eqb_eq in Heq. now subst.
Qed.

Lemma lookup_missing (dir : directory) (q : string) :
  lookup q dir = None -> ~ In q (paths dir).
Proof.
  unfold lookup, paths. destruct (find _ dir) as [e|] eqn:E; [discriminate|].
  intros _ Hin. apply in_map_iff in Hin as [[q' t] [Hq Hin]]. simpl in Hq. subst q'.
  pose proof (find_none _ _ E _ Hin) as H. simpl in H.
  now rewrite String.eqb_refl in H.
Qed.

Lemma unlink_length (dir : directory) (q : string) (t : tile_file) :
  NoDup (paths dir) -> In (q, t) dir ->
  S (List.length (unlink q dir)) = List.length dir.
Proof.
  unfold unlink, paths. induction dir as [|[p u] dir IH]; intros Hnd Hin; [contradiction|].
  simpl in Hnd. inversion Hnd as [|x xs Hnotin Hnd']; subst.
  simpl. destruct (String.eqb_spec p q) as [->|Hne]; simpl.
  - f_equal. rewrite filter_keep_all; [reflexivity|].
    intros [p' u'] Hin'. simpl. apply negb_true_iff, String.eqb_neq.
    intros ->. apply Hnotin. apply in_map_iff. now exists (q, u').
  - f_equal. apply IH; [assumption|].
    destruct Hin as [He|Hin]; [inversion He; contradiction|assumption].
Qed.

Section PruningMore.

Variable is_blank : tile_file -> bool.

(** What one pass over the paths [ps] leaves, and that the number it
    adds up is the number of entries gone. *)
Lemma prune_fold (ps : list string) :
  forall (acc : Z * directory),
    NoDup (paths (snd acc)) ->
    snd (fold_left (prune_step is_blank) ps acc)
    = filter (fun e => negb (existsb (String.eqb (fst e)) ps
                             && (is_blank (snd e) && removable (snd e))))
             (snd acc)
    /\ (fst (fold_left (prune_step is_blank) ps acc)
        + Z.of_nat (List.length (snd (fold_left (prune_step is_blank) ps acc)))
        = fst acc + Z.of_nat (List.length (snd acc)))%Z.
Proof.
  induction ps as [|q ps IH]; intros [r dir] Hnd; simpl in Hnd |- *.
  - split; [|reflexivity]. symmetry. now apply filter_keep_all.
  - assert (Hstep : NoDup (paths (snd (prune_step is_blank (r, dir) q)))
                    /\ filter (fun e => negb (existsb (String.eqb (fst e)) ps
                                              && (is_blank (snd e) && removable (snd e))))
                              (snd (prune_step is_blank (r, dir) q))
                       = filter (fun e => negb ((String.eqb (fst e) q
                                                 || existsb (String.eqb (fst e)) ps)
                                                && (is_blank (snd e) && removable (snd e))))
                                dir
                    /\ (fst (prune_step is_blank (r, dir) q)
                        + Z.of_nat (List.length (snd (prune_step is_blank (r, dir) q)))
                        = r + Z.of_nat (List.length dir))%Z).
    { unfold prune_step, process_tile. simpl.
      destruct (lookup q dir) as [t|] eqn:L.
      - pose proof (lookup_found _ _ _ L) as Hin.
        assert (Hsame : forall e, In e dir -> fst e = q -> snd e = t).
        { intros [p u] He Hq. simpl in Hq |- *. subst p.
          pose proof (lookup_in _ _ _ Hnd He) as L'. congruence. }
        destruct (is_blank t) eqn:B; [destruct (removable t) eqn:Rm|].
        + simpl. split; [now apply nodup_unlink|]. split.
          * unfold unlink. rewrite filter_twice. apply filter_ext_in.
            intros e He. destruct (String.eqb_spec (fst e) q) as [Hq|Hq]; simpl.
            -- now rewrite (Hsame e He Hq), B, Rm.
            -- reflexivity.
          * rewrite <- (unlink_length dir q t Hnd Hin). lia.
        + simpl. split; [assumption|]. split; [|lia].
          apply filter_ext_in. intros e He.
          destruct (String.eqb_spec (fst e) q) as [Hq|Hq]; simpl; [|reflexivity].
          rewrite (Hsame e He Hq), B, Rm. simpl. now rewrite andb_false_r.
        + simpl. split; [assumption|]. split; [|lia].
          apply filter_ext_in. intros e He.
          destruct (String.eqb_spec (fst e) q) as [Hq|Hq]; simpl; [|reflexivity].
          rewrite (Hsame e He Hq), B. simpl. now rewrite andb_false_r.
      - simpl. split; [assumption|]. split; [|lia].
        apply filter_ext_in. intros e He.
        destruct (String.eqb_spec (fst e) q) as [Hq|Hq]; simpl; [|reflexivity].
        exfalso. apply (lookup_missing _ _ L). rewrite <- Hq.
        unfold paths. now apply in_map. }
    destruct Hstep as [Hnd' [Hfil Hcount]].
    destruct (IH (prune_step is_blank (r, dir) q) Hnd') as [H1 H2].
    split.
    + rewrite H1. exact Hfil.
    + rewrite H2. exact Hcount.
Qed.

Lemma prune_pngs (dir : directory) (r : Z) :
  NoDup (paths dir) ->
  snd (fold_left (prune_step is_blank) (filter is_png (paths dir)) (r, dir))
  = filter (fun e => negb (deleted_by is_blank e)) dir
  /\ (fst (fold_left (prune_step is_blank) (filter is_png (paths dir)) (r, dir))
      + Z.of_nat (List.length
                    (snd (fold_left (prune_step is_blank)
                                    (filter is_png (paths dir)) (r, dir))))
      = r + Z.of_nat (List.length dir))%Z.
Proof.
  intros Hnd. destruct (prune_fold (filter is_png (paths dir)) (r, dir) Hnd)
    as [H1 H2]. split; [|exact H2].
  rewrite H1. simpl. apply filter_ext_in. intros e He. unfold deleted_by.
  f_equal. f_equal.
  destruct (is_png (fst e)) eqn:P.
  - apply existsb_exists. exists (fst e). split; [|apply String.eqb_refl].
    apply filter_In. split; [|assumption]. unfold paths. now apply in_map.
  - destruct (existsb _ _) eqn:E; [|reflexivity].
    apply existsb_exists in E as [p [Hp Heq]]. apply String.eqb_eq in Heq. subst p.
    apply filter_In in Hp as [_ Hp]. congruence.
Qed.

End PruningMore.

Lemma clean_tiles_result_parts (alpha_only : bool) (dir : directory) :
  NoDup (paths dir) ->
  snd (NewTiles.clean_tiles alpha_only dir)
  = filter (fun e => negb (deleted_by (NewTiles.is_blank_tile alpha_only) e)) dir
  /\ snd (OldTiles.clean_tiles alpha_only dir)
     = filter (fun e => negb (deleted_by (OldTiles.is_blank_tile alpha_only) e)) dir.
Proof.
  intros Hnd. rewrite new_clean_tiles_fold.
  unfold OldTiles.clean_tiles, prune_batch. fold (paths dir).
  split; now apply prune_pngs.
Qed.

(** X12.  On an output directory, in both scripts, what [clean_tiles]
    leaves is the directory without the entries at a [.png] path whose
    file is judged blank and can be removed, in the same order, so a file
    at another path is never touched; and the number it reports is the
    number of entries that are gone. *)
Theorem clean_tiles_result (alpha_only : bool) (dir : directory) :
  NoDup (paths dir) ->
  (snd (NewTiles.clean_tiles alpha_only dir)
   = filter (fun e => negb (deleted_by (NewTiles.is_blank_tile alpha_only) e)) dir
   /\ fst (NewTiles.clean_tiles alpha_only dir)
      = (Z.of_nat (List.length dir)
         - Z.of_nat (List.length (snd (NewTiles.clean_tiles alpha_only dir))))%Z)
  /\ (snd (OldTiles.clean_tiles alpha_only dir)
      = filter (fun e => negb (deleted_by (OldTiles.is_blank_tile alpha_only) e)) dir
      /\ fst (OldTiles.clean_tiles alpha_only dir)
         = (Z.of_nat (List.length dir)
            - Z.of_nat (List.length (snd (OldTiles.clean_tiles alpha_only dir))))%Z).
Proof.
  intros Hnd. rewrite new_clean_tiles_fold.
  unfold OldTiles.clean_tiles, prune_batch.
  destruct (prune_pngs (NewTiles.is_blank_tile alpha_only) dir 0 Hnd) as [N1 N2].
  destruct (prune_pngs (OldTiles.is_blank_tile alpha_only) dir 0 Hnd) as [O1 O2].
  fold (paths dir). split; (split; [assumption|lia]).
Qed.

Lemma clean_tiles_result_witness :
  fst (NewTiles.clean_tiles true [("t/1.png", small_blank_tile)])
  = (Z.of_nat (List.length [("t/1.png", small_blank_tile)])
     - Z.of_nat (List.length
                   (snd (NewTiles.clean_tiles true [("t/1.png", small_blank_tile)]))))%Z.
Proof.
  apply (fun H => proj2 (proj1 (clean_tiles_result
                                  true [("t/1.png", small_blank_tile)] H))).
  constructor; [intros []|constructor].
Defined.

Lemma new_blank_is_old_blank (alpha_only : bool) (t : tile_file) :
  NewTiles.is_blank_tile alpha_only t = true ->
  OldTiles.is_blank_tile alpha_only t = true.
Proof.
  unfold NewTiles.is_blank_tile, OldTiles.is_blank_tile.
  destruct (getsize t) as [size|]; [|discriminate].
  now destruct (size >? BLANK_TILE_SIZE_BYTES)%Z.
Qed.

Lemma pair_eq {A B : Type} (p : A * B) (a : A) (b : B) :
  fst p = a -> snd p = b -> p = (a, b).
Proof. destruct p. simpl. congruence. Qed.

(** X13.  Pruning is idempotent in both scripts: run again on the
    directory it left, [clean_tiles] removes nothing and reports 0. *)
Theorem clean_tiles_twice (alpha_only : bool) (dir : directory) :
  NoDup (paths dir) ->
  NewTiles.clean_tiles alpha_only (snd (NewTiles.clean_tiles alpha_only dir))
  = (0%Z, snd (NewTiles.clean_tiles alpha_only dir))
  /\ OldTiles.clean_tiles alpha_only (snd (OldTiles.clean_tiles alpha_only dir))
     = (0%Z, snd (OldTiles.clean_tiles alpha_only dir)).
Proof.
  intros Hnd.
  assert (Hgen : forall is_blank,
             let dir' := filter (fun e => negb (deleted_by is_blank e)) dir in
             fold_left (prune_step is_blank) (filter is_png (paths dir')) (0%Z, dir')
             = (0%Z, dir')).
  { intros is_blank. cbv zeta.
    set (dir' := filter (fun e => negb (deleted_by is_blank e)) dir).
    assert (Hnd' : NoDup (paths dir')) by (now apply nodup_map_filter).
    assert (Hsame : filter (fun e => negb (deleted_by is_blank e)) dir' = dir').
    { apply filter_keep_all. intros e He. now apply filter_In in He as [_ He]. }
    clearbody dir'.
    destruct (prune_pngs is_blank dir' 0 Hnd') as [H1 H2].
    rewrite Hsame in H1. apply pair_eq; [|assumption].
    rewrite H1 in H2. now apply Z.add_cancel_r in H2. }
  destruct (clean_tiles_result_parts alpha_only dir Hnd) as [HN HO].
  split.
  - rewrite HN, new_clean_tiles_fold. apply Hgen.
  - rewrite HO. unfold OldTiles.clean_tiles, prune_batch. apply Hgen.
Qed.

Lemma clean_tiles_twice_witness :
  NewTiles.clean_tiles true
    (snd (NewTiles.clean_tiles true [("t/1.png", small_blank_tile)]))
  = (0%Z, snd (NewTiles.clean_tiles true [("t/1.png", small_blank_tile)])).
Proof.
  apply (fun H => proj1 (clean_tiles_twice true [("t/1.png", small_blank_tile)] H)).
  constructor; [intros []|constructor].
Defined.

(** X14.  On the same directory the later script deletes no file the
    earlier script keeps: every entry the earlier [clean_tiles] leaves is
    left by the later one too, and the later one reports no larger a
    number. *)
Theorem later_script_deletes_less (alpha_only : bool) (dir : directory) :
  NoDup (paths dir) ->
  (forall e, In e (snd (OldTiles.clean_tiles alpha_only dir)) ->
             In e (snd (NewTiles.clean_tiles alpha_only dir)))
  /\ (fst (NewTiles.clean_tiles alpha_only dir)
      <= fst (OldTiles.clean_tiles alpha_only dir))%Z.
Proof.
  intros Hnd.
  destruct (clean_tiles_result_parts alpha_only dir Hnd) as [HN HO].
  assert (Himp : forall e,
             negb (deleted_by (OldTiles.is_blank_tile alpha_only) e) = true ->
             negb (deleted_by (NewTiles.is_blank_tile alpha_only) e) = true).
  { intros e He. apply negb_true_iff. apply negb_true_iff in He.
    unfold deleted_by in *. destruct (is_png (fst e)); [|reflexivity]. simpl in *.
    destruct (NewTiles.is_blank_tile alpha_only (snd e)) eqn:B; [|reflexivity].
    now rewrite (new_blank_is_old_blank _ _ B) in He. }
  split.
  - intros e. rewrite HN, HO, !filter_In. intros [H1 H2]. split; [assumption|].
    now apply Himp.
  - rewrite new_clean_tiles_fold. unfold OldTiles.clean_tiles, prune_batch.
    fold (paths dir).
    destruct (prune_pngs (NewTiles.is_blank_tile alpha_only) dir 0 Hnd) as [N1 N2].
    destruct (prune_pngs (OldTiles.is_blank_tile alpha_only) dir 0 Hnd) as [O1 O2].
    assert (Hlen : (List.length (filter (fun e => negb (deleted_by
                       (OldTiles.is_blank_tile alpha_only) e)) dir)
                    <= List.length (filter (fun e => negb (deleted_by
                       (NewTiles.is_blank_tile alpha_only) e)) dir))%nat).
    { replace (filter (fun e => negb (deleted_by (OldTiles.is_blank_tile alpha_only) e))
                      dir)
        with (filter (fun e => negb (deleted_by (OldTiles.is_blank_tile alpha_only) e))
                     (filter (fun e => negb (deleted_by
                                (NewTiles.is_blank_tile alpha_only) e)) dir)).
      - apply filter_length_le.
      - rewrite filter_twice. apply filter_ext. intros e.
        destruct (negb (deleted_by (OldTiles.is_blank_tile alpha_only) e)) eqn:E.
        + now rewrite (Himp e E).
        + now rewrite andb_false_r. }
    rewrite N1 in N2. rewrite O1 in O2. lia.
Qed.

Lemma later_script_deletes_less_witness :
  (fst (NewTiles.clean_tiles true example_directory)
   <= fst (OldTiles.clean_tiles true example_directory))%Z.
Proof.
  apply (fun H => proj2 (later_script_deletes_less true example_directory H)).
  constructor; [intros []|constructor].
Defined.

Lemma batches_shape {A : Type} (n : nat) (fuel : nat) :
  forall l : list A,
    (0 < n)%nat ->
    Forall (fun b => b <> [] /\ (List.length b <= n)%nat) (batches fuel n l).
Proof.
  induction fuel as [|fuel IH]; intros l Hn; [constructor|].
  destruct l as [|x l]; [constructor|]. cbn [batches].
  constructor; [|now apply IH]. split.
  - destruct n; [lia|]. discriminate.
  - rewrite length_firstn. lia.
Qed.

(** X15.  The batches the later script cuts a list of paths into, for a
    positive batch size, are not empty, hold at most that many paths each,
    and put together give the list back: every path is in exactly one
    batch, in order. *)
Theorem batches_cover {A : Type} (n : nat) (l : list A) :
  (0 < n)%nat ->
  List.concat (batches (List.length l) n l) = l
  /\ Forall (fun b => b <> [] /\ (List.length b <= n)%nat)
            (batches (List.length l) n l).
Proof.
  intros Hn. split.
  - apply concat_batches; [assumption|apply Nat.le_refl].
  - now apply batches_shape.
Qed.

Lemma batches_cover_witness :
  List.concat (batches (List.length [1; 2; 3; 4; 5]%Z) 2 [1; 2; 3; 4; 5]%Z)
  = [1; 2; 3; 4; 5]%Z.
Proof.
  apply (fun H => proj1 (batches_cover 2 [1; 2; 3; 4; 5]%Z H)). lia.
Defined.

(** ** More on outline reduction *)

Section OutlineMore.

Context {G Ring : Type} {geo : Geometry G Ring}.





Lemma scan_group_last (arr : list (outline G)) (B : outline G) :
  NoDup (map fid (arr ++ [B])) ->
  ~ In (fid B) (NewOutline.scan_group (arr ++ [B]) []).
Proof.
  intros Hnd Hin.
  destruct (scan_group_sound _ _ Hin) as [pre [S' [later [Hs [Hfid Hc]]]]].
  destruct later as [|x later0]; [discriminate Hc|].
  destruct (exists_last (l := x :: later0)) as [later' [y Hy]]; [discriminate|].
  rewrite Hy in Hs.
  assert (Hs' : arr ++ [B] = (pre ++ S' :: later') ++ [y])
    by (rewrite Hs, <- app_assoc; reflexivity).
  apply app_inj_tail in Hs' as [Harr HB]. subst arr y.
  rewrite map_app in Hnd. simpl in Hnd.
  apply NoDup_remove_2 in Hnd. apply Hnd. rewrite app_nil_r, <- Hfid.
  apply in_map, in_or_app. right. now left.
Qed.

(** X17.  On a layer with pairwise different ids the later script's
    cleaner never empties a group: for every polygon of the ring-reduced
    layer some polygon with the same [group_key] is left. *)
Theorem new_group_survives (layer : list (outline G)) (S : outline G) :
  NoDup (map fid layer) -> In S (NewOutline.reduced layer) ->
  exists B,
    In B (snd (NewOutline.clean_outline_layer_batch layer))
    /\ group_key B = group_key S.
Proof.
  intros Hnd HS.
  assert (HndN : NoDup (map fid (NewOutline.reduced layer)))
    by (unfold NewOutline.reduced; now rewrite changed_fids).
  set (feats := NewOutline.reduced layer) in *.
  pose proof (sorted_by_area_perm (filter (same_key S) feats)) as Hperm.
  assert (HSin : In S (filter (same_key S) feats)).
  { apply filter_In. split; [assumption|]. unfold same_key. apply String.eqb_refl. }
  destruct (exists_last (l := sorted_by_area (filter (same_key S) feats)))
    as [arr [B HB]].
  { intros Hnil. rewrite Hnil in Hperm. apply Permutation_nil in Hperm.
    rewrite Hperm in HSin. contradiction. }
  assert (HBin : In B (filter (same_key S) feats)).
  { apply (Permutation_in _ Hperm). rewrite HB. apply in_or_app. right. now left. }
  apply filter_In in HBin as [HBfeats HBkey]. unfold same_key in HBkey.
  apply String.eqb_eq in HBkey.
  exists B. split; [|assumption].
  unfold NewOutline.clean_outline_layer_batch. simpl. fold feats.
  apply delete_features_in. split; [assumption|].
  rewrite (remove_ids_own_group feats B HndN HBfeats).
  replace (filter (same_key B) feats) with (filter (same_key S) feats)
    by (apply filter_ext; intros g; unfold same_key; now rewrite HBkey).
  rewrite HB. apply scan_group_last. rewrite <- HB.
  eapply Permutation_NoDup.
  - apply Permutation_map, Permutation_sym, Hperm.
  - now apply nodup_map_filter.
Qed.

(** A polygon of a group that none of the group exceeds in area. *)
Lemma largest_of_group (group : list (outline G)) (S : outline G) :
  (forall a, area_lt a a = false) ->
  (forall a b c, area_lt a b = true -> area_lt b c = true -> area_lt a c = true) ->
  In S group ->
  exists M, In M group
            /\ forall x, In x group -> area_lt (geometry M) (geometry x) = false.
Proof.
  intros Hirr Htrans. revert S. induction group as [|f group IH]; intros S HS;
    [contradiction|].
  destruct group as [|g group'].
  - exists f. split; [now left|]. intros x [<-|[]]. apply Hirr.
  - destruct (IH g (or_introl eq_refl)) as [M [HM Hmax]].
    destruct (area_lt (geometry M) (geometry f)) eqn:E.
    + exists f. split; [now left|]. intros x [<-|Hx]; [apply Hirr|].
      destruct (area_lt (geometry f) (geometry x)) eqn:E'; [|reflexivity].
      rewrite <- (Hmax x Hx). symmetry. eapply Htrans; eassumption.
    + exists M. split; [now right|]. intros x [<-|Hx]; [assumption|now apply Hmax].
Qed.

(** X18.  When comparing areas by [<] is irreflexive and transitive, as
    it is for numbers, the earlier script's cleaner never empties a group
    either, on a layer with pairwise different ids. *)
Theorem old_group_survives (layer : list (outline G)) (S : outline G) :
  (forall a, area_lt a a = false) ->
  (forall a b c, area_lt a b = true -> area_lt b c = true -> area_lt a c = true) ->
  NoDup (map fid layer) -> In S (OldOutline.reduced layer) ->
  exists B,
    In B (snd (OldOutline.clean_outline_layer layer))
    /\ group_key B = group_key S.
Proof.
  intros Hirr Htrans Hnd HS.
  assert (HndO : NoDup (map fid (OldOutline.reduced layer)))
    by (unfold OldOutline.reduced; now rewrite changed_fids).
  set (feats := OldOutline.reduced layer) in *.
  assert (HSin : In S (filter (same_key S) feats)).
  { apply filter_In. split; [assumption|]. unfold same_key. apply String.eqb_refl. }
  destruct (largest_of_group _ S Hirr Htrans HSin) as [M [HM Hmax]].
  apply filter_In in HM as [HMfeats HMkey]. unfold same_key in HMkey.
  apply String.eqb_eq in HMkey.
  exists M. split; [|assumption].
  unfold OldOutline.clean_outline_layer. simpl. fold feats.
  apply delete_features_in. split; [assumption|].
  rewrite (old_removed_iff feats M HndO HMfeats).
  intros [B [HB [_ [HBkey [_ Har]]]]].
  rewrite Hmax in Har; [discriminate|].
  apply filter_In. split; [assumption|]. unfold same_key.
  apply String.eqb_eq. congruence.
Qed.

(** *** The number reported *)

Lemma set_add_nodup (x : Z) (s : list Z) : NoDup s -> NoDup (set_add x s).
Proof.
  intros H. unfold set_add. destruct (existsb (Z.eqb x) s) eqn:E; [assumption|].
  constructor; [|assumption]. intros Hin. apply existsb_eqb_in in Hin. congruence.
Qed.

Lemma scan_group_nodup (arr : list (outline G)) :
  forall acc, NoDup acc -> NoDup (NewOutline.scan_group arr acc).
Proof.
  induction arr as [|f later IH]; intros acc H; [assumption|].
  simpl. apply IH. destruct (NewOutline.contained_later f later); [|assumption].
  now apply set_add_nodup.
Qed.

Lemma remove_ids_nodup (feats : list (outline G)) :
  NoDup (NewOutline.remove_ids feats).
Proof.
  unfold NewOutline.remove_ids.
  assert (H : forall (groups : list (string * list (outline G))) acc,
             NoDup acc ->
             NoDup (fold_left (fun acc group =>
                                 NewOutline.scan_group (sorted_by_area (snd group)) acc)
                              groups acc)).
  { induction groups as [|g groups IH]; intros acc Hacc; [assumption|].
    simpl. apply IH. now apply scan_group_nodup. }
  apply H. constructor.
Qed.

Lemma remove_ids_are_fids (feats : list (outline G)) (id : Z) :
  In id (NewOutline.remove_ids feats) -> In id (map fid feats).
Proof.
  unfold NewOutline.remove_ids. rewrite remove_ids_groups.
  intros [[]|[[k arr] [Hg Hid]]]. simpl in Hid.
  destruct (by_group_grouped feats) as [_ [Hfil _]].
  destruct (scan_group_sound _ _ Hid) as [pre [S' [later [Hs [Hfid _]]]]].
  assert (HS' : In S' arr).
  { apply (Permutation_in _ (sorted_by_area_perm arr)).
    rewrite Hs. apply in_or_app. right. now left. }
  rewrite (Hfil _ _ Hg) in HS'. apply filter_In in HS' as [HS' _].
  rewrite <- Hfid. now apply in_map.
Qed.

(** X19.  On a layer with pairwise different ids the number the later
    script's cleaner reports is the number of polygons it deleted. *)
Theorem new_cleaner_count (layer : list (outline G)) :
  NoDup (map fid layer) ->
  (fst (NewOutline.clean_outline_layer_batch layer)
   + List.length (snd (NewOutline.clean_outline_layer_batch layer)))%nat
  = List.length layer.
Proof.
  intros Hnd.
  assert (HndN : NoDup (map fid (NewOutline.reduced layer)))
    by (unfold NewOutline.reduced; now rewrite changed_fids).
  assert (Hlen : List.length (NewOutline.reduced layer) = List.length layer).
  { rewrite <- (length_map fid (NewOutline.reduced layer)), <- (length_map fid layer).
    unfold NewOutline.reduced. now rewrite changed_fids. }
  unfold NewOutline.clean_outline_layer_batch. simpl.
  set (feats := NewOutline.reduced layer) in *.
  set (ids := NewOutline.remove_ids feats).
  rewrite <- Hlen.
  rewrite <- (filter_length (fun feat => existsb (Z.eqb (fid feat)) ids) feats).
  unfold delete_features. f_equal.
  rewrite <- (length_map fid (filter _ feats)).
  apply Permutation_length, NoDup_Permutation.
  - apply remove_ids_nodup.
  - now apply nodup_map_filter.
  - intros id. split.
    + intros Hid. pose proof (remove_ids_are_fids feats id Hid) as Hf.
      apply in_map_iff in Hf as [f [Hf Hin]]. apply in_map_iff. exists f.
      split; [assumption|]. apply filter_In. split; [assumption|].
      apply existsb_eqb_in. now rewrite Hf.
    + intros Hid. apply in_map_iff in Hid as [f [Hf Hin]].
      apply filter_In in Hin as [_ Hin]. apply existsb_eqb_in in Hin. now rewrite <- Hf.
Qed.

(** X20.  [exteriors] keeps, in order, exactly the parts of a
    multi-polygon that have a ring, each reduced to its first ring: the
    result is the list of the first rings, each as a part of its own, of
    the parts that are not empty.  So every part of the result has a
    single ring, the result has no more parts than the multi-polygon,
    applying [exteriors] again changes nothing, and when no part is empty
    the result has the first ring of every part. *)
Theorem exteriors_single_rings (parts : list (list Ring)) :
  exteriors parts
  = map (fun poly => firstn 1 poly)
        (filter (fun poly => (0 <? List.length poly)%nat) parts)
  /\ Forall (fun poly => List.length poly = 1%nat) (exteriors parts)
  /\ (List.length (exteriors parts) <= List.length parts)%nat
  /\ exteriors (exteriors parts) = exteriors parts
  /\ (Forall (fun poly => poly <> []) parts ->
      exteriors parts = map (fun poly => firstn 1 poly) parts).
Proof.
  unfold exteriors.
  induction parts as [|poly parts [IH0 [IH1 [IH2 [IH3 IH4]]]]].
  - simpl. repeat split; auto.
  - destruct poly as [|ring rest]; simpl.
    + split; [assumption|]. split; [assumption|]. split; [lia|].
      split; [assumption|]. intros H. inversion H. congruence.
    + split; [now rewrite IH0|]. split; [now constructor|]. split; [lia|].
      split; [now rewrite IH3|]. intros H. inversion H. now rewrite IH4.
Qed.

End OutlineMore.

Lemma rect_area_lt_irreflexive (a : rect) : area_lt a a = false.
Proof. simpl. apply Z.ltb_irrefl. Qed.

Lemma rect_area_lt_transitive (a b c : rect) :
  area_lt a b = true -> area_lt b c = true -> area_lt a c = true.
Proof. simpl. rewrite !Z.ltb_lt. lia. Qed.


Lemma new_group_survives_witness :
  exists B,
    In B (snd (NewOutline.clean_outline_layer_batch example_layer))
    /\ group_key B = group_key (mkoutline 4 "7" (2, 2, 8, 8)%Z).
Proof.
  apply (new_group_survives example_layer (mkoutline 4 "7" (2, 2, 8, 8)%Z)
                            example_layer_ids).
  vm_compute. right. right. right. left. reflexivity.
Defined.

Lemma old_group_survives_witness :
  exists B,
    In B (snd (OldOutline.clean_outline_layer example_layer))
    /\ group_key B = group_key (mkoutline 4 "7" (2, 2, 8, 8)%Z).
Proof.
  apply (old_group_survives example_layer (mkoutline 4 "7" (2, 2, 8, 8)%Z)
                            rect_area_lt_irreflexive rect_area_lt_transitive
                            example_layer_ids).
  vm_compute. right. right. right. left. reflexivity.
Defined.

Lemma new_cleaner_count_witness :
  (fst (NewOutline.clean_outline_layer_batch example_layer)
   + List.length (snd (NewOutline.clean_outline_layer_batch example_layer)))%nat
  = List.length example_layer.
Proof. apply (new_cleaner_count example_layer example_layer_ids). Defined.

Lemma exteriors_single_rings_witness :
  exteriors [[1; 2]; [3]]%Z = map (fun poly => firstn 1 poly) [[1; 2]; [3]]%Z.
Proof.
  apply (proj2 (proj2 (proj2 (proj2 (exteriors_single_rings [[1; 2]; [3]]%Z))))).
  repeat constructor; discriminate.
Defined.

(** ** Further facts on the estimate *)

Section EstimatorMore.

Context {F : Type} {arith : Arith F}.

Lemma estimate_split (xmin xmax ymin ymax : F) (zoom_min k zoom_max : Z) :
  (zoom_min - 1 <= k)%Z -> (k <= zoom_max)%Z ->
  EstimateTileCount xmin xmax ymin ymax zoom_min zoom_max
  = (EstimateTileCount xmin xmax ymin ymax zoom_min k
     + EstimateTileCount xmin xmax ymin ymax (k + 1) zoom_max)%Z.
Proof.
  intros H1 H2. unfold EstimateTileCount.
  replace (Z.to_nat (zoom_max - zoom_min + 1))
    with (Z.to_nat (k - zoom_min + 1) + Z.to_nat (zoom_max - (k + 1) + 1))%nat
    by lia.
  rewrite sum_from_app.
  replace (zoom_min + Z.of_nat (Z.to_nat (k - zoom_min + 1)))%Z
    with (k + 1)%Z by lia.
  reflexivity.
Qed.

(** X22.  For both estimators an empty zoom range gives 0, and the
    estimate of a range is the sum of the estimates of its two parts:
    with [zoom_min - 1 <= k <= zoom_max], the estimate for
    [zoom_min .. zoom_max] is the one for [zoom_min .. k] plus the one for
    [k + 1 .. zoom_max]. *)
Theorem estimate_additive (xmin xmax ymin ymax : F) (zoom_min k zoom_max : Z) :
  ((zoom_max < zoom_min)%Z ->
   compute_total_tiles_wgs84 xmin xmax ymin ymax zoom_min zoom_max = 0%Z
   /\ compute_total_tiles xmin xmax ymin ymax zoom_min zoom_max = 0%Z)
  /\ ((zoom_min - 1 <= k)%Z -> (k <= zoom_max)%Z ->
      compute_total_tiles_wgs84 xmin xmax ymin ymax zoom_min zoom_max
      = (compute_total_tiles_wgs84 xmin xmax ymin ymax zoom_min k
         + compute_total_tiles_wgs84 xmin xmax ymin ymax (k + 1) zoom_max)%Z
      /\ compute_total_tiles xmin xmax ymin ymax zoom_min zoom_max
         = (compute_total_tiles xmin xmax ymin ymax zoom_min k
            + compute_total_tiles xmin xmax ymin ymax (k + 1) zoom_max)%Z).
Proof.
  rewrite !compute_total_tiles_wgs84_sum, ?compute_total_tiles_sum. split.
  - intros H. unfold EstimateTileCount.
    replace (Z.to_nat (zoom_max - zoom_min + 1)) with O by lia.
    split; reflexivity.
  - intros H1 H2. split; now apply estimate_split.
Qed.

End EstimatorMore.

Lemma estimate_additive_witness :
  compute_total_tiles_wgs84 0%R 1%R 0%R 1%R 10 20
  = (compute_total_tiles_wgs84 0%R 1%R 0%R 1%R 10 14
     + compute_total_tiles_wgs84 0%R 1%R 0%R 1%R 15 20)%Z.
Proof.
  apply (proj1 (proj2 (estimate_additive 0%R 1%R 0%R 1%R 10 14 20)
                      ltac:(lia) ltac:(lia))).
Defined.
